(** * Backup / restore engine of memoria-neo4j: a shallow embedding

    The Python sources modelled here are [src/backend/utils.py],
    [src/backend/neo4j_backup_restore.py] (the "v3.1" engine) and, where a
    claim cites it, the older copy [src/neo4j_backup_restore.py].

    Python [str] values are sequences of Unicode code points; they are
    modelled as [list N].  The helper [str] turns an ASCII Rocq string
    literal into such a code point list. *)

From Stdlib Require Import List Bool NArith ZArith String Ascii Lia QArith.
Import ListNotations.

Open Scope list_scope.

(** ** Python strings *)

Definition pystr := list N.

Fixpoint str (s : string) : pystr :=
  match s with
  | EmptyString => []
  | String c s' => N_of_ascii c :: str s'
  end.

(** Character classes of the regular expressions [[a-zA-Z_]] and
    [[a-zA-Z0-9_]] (Python [str] patterns without [re.ASCII]: the ranges are
    literal code point ranges). *)
Definition is_ascii_letter (c : N) : bool :=
  ((65 <=? c)%N && (c <=? 90)%N) || ((97 <=? c)%N && (c <=? 122)%N).

Definition is_ascii_digit (c : N) : bool := (48 <=? c)%N && (c <=? 57)%N.

Definition underscore : N := 95%N.

(** [[a-zA-Z0-9_]] *)
Definition word_class (c : N) : bool :=
  is_ascii_letter c || is_ascii_digit c || (c =? underscore)%N.

(** [[a-zA-Z_]] *)
Definition head_class (c : N) : bool :=
  is_ascii_letter c || (c =? underscore)%N.

(** ** The identifier regular expression

    [VALID_IDENTIFIER_PATTERN = re.compile(r'^[a-zA-Z_][a-zA-Z0-9_]*$')]
    (utils.py line 18) and its copies [VALID_LABEL_PATTERN] and
    [VALID_REL_TYPE_PATTERN] (neo4j_backup_restore.py lines 53-54), used
    with [.match].  Without [re.MULTILINE], Python's [$] matches at the end
    of the string and also just before a newline that ends the string. *)

Definition dollar_matches (rest : pystr) : bool :=
  match rest with
  | [] => true
  | [c] => (c =? 10)%N
  | _ => false
  end.

(** [[a-zA-Z0-9_]*$]: the star may stop at any point (backtracking), after
    which [$] must match. *)
Fixpoint star_then_dollar (s : pystr) : bool :=
  dollar_matches s ||
  match s with
  | [] => false
  | c :: s' => word_class c && star_then_dollar s'
  end.

Definition identifier_pattern_match (s : pystr) : bool :=
  match s with
  | [] => false
  | c :: s' => head_class c && star_then_dollar s'
  end.

(** [validate_cypher_identifier] (utils.py lines 119-128). *)
Definition validate_cypher_identifier (identifier : pystr) : bool :=
  match identifier with
  | [] => false
  | _ => identifier_pattern_match identifier
  end.

(** [validate_cypher_label] (neo4j_backup_restore.py lines 57-59). *)
Definition validate_cypher_label (label : pystr) : bool :=
  identifier_pattern_match label.

(** [validate_cypher_rel_type] (neo4j_backup_restore.py lines 62-64). *)
Definition validate_cypher_rel_type (rel_type : pystr) : bool :=
  identifier_pattern_match rel_type.

(** The identifier grammar in the words of the spec (section 4.1): the
    first character is a letter or underscore, the remaining characters are
    letters, digits or underscore; the empty string is rejected.  This is
    the reference the regular expression is compared with. *)
Definition identifier_grammar (s : pystr) : bool :=
  match s with
  | [] => false
  | c :: s' => head_class c && forallb word_class s'
  end.

(** ** The sanitizer *)

(** One step of [re.sub(r'[^a-zA-Z0-9_]', '_', s)]: each code point outside
    the class becomes an underscore. *)
Definition sub_char (c : N) : N := if word_class c then c else underscore.

Definition re_sub_non_word (s : pystr) : pystr := map sub_char s.

(** [sanitized[0].isdigit()].  The argument is always a character of the
    substituted string, hence in [[a-zA-Z0-9_]], where [str.isdigit] holds
    exactly on [0-9]. *)
Definition first_isdigit (s : pystr) : bool :=
  match s with
  | [] => false
  | c :: _ => is_ascii_digit c
  end.

(** The shared body: substitute, then prefix an underscore when the first
    character is a digit ([if sanitized and sanitized[0].isdigit()]). *)
Definition substitute_and_prefix (s : pystr) : pystr :=
  let sanitized := re_sub_non_word s in
  if first_isdigit sanitized then underscore :: sanitized else sanitized.

(** Python's [x or y] on strings. *)
Definition str_or (x y : pystr) : pystr :=
  match x with
  | [] => y
  | _ => x
  end.

(** [sanitize_cypher_identifier(identifier, default)] (utils.py lines
    131-152). *)
Definition sanitize_cypher_identifier (identifier default : pystr) : pystr :=
  match identifier with
  | [] => default
  | _ => str_or (substitute_and_prefix identifier) default
  end.

Definition Node_label : pystr := str "Node".

(** [sanitize_label(label)] (neo4j_backup_restore.py lines 67-74). *)
Definition sanitize_label (label : pystr) : pystr :=
  str_or (substitute_and_prefix label) Node_label.

(** ** Python list and dict helpers *)

Fixpoint pystr_eqb (a b : pystr) : bool :=
  match a, b with
  | [], [] => true
  | x :: a', y :: b' => (x =? y)%N && pystr_eqb a' b'
  | _, _ => false
  end.

(** Lexicographic [<] on code point sequences (Python's [str] order). *)
Fixpoint pystr_ltb (a b : pystr) : bool :=
  match a, b with
  | _, [] => false
  | [], _ :: _ => true
  | x :: a', y :: b' => (x <? y)%N || ((x =? y)%N && pystr_ltb a' b')
  end.

Fixpoint insert_sorted (x : pystr) (l : list pystr) : list pystr :=
  match l with
  | [] => [x]
  | y :: l' => if pystr_ltb y x then y :: insert_sorted x l' else x :: l
  end.

(** [sorted(l)] on a list of strings. *)
Definition py_sorted (l : list pystr) : list pystr := fold_right insert_sorted [] l.

(** [sep.join(l)]. *)
Fixpoint py_join (sep : pystr) (l : list pystr) : pystr :=
  match l with
  | [] => []
  | [x] => x
  | x :: l' => x ++ sep ++ py_join sep l'
  end.

(** Python dicts keep insertion order; they are association lists here. *)
Fixpoint dict_get {K V : Type} (eqk : K -> K -> bool) (k : K) (d : list (K * V))
  : option V :=
  match d with
  | [] => None
  | (k', v) :: d' => if eqk k k' then Some v else dict_get eqk k d'
  end.

(** [d[k] = v]: overwrite in place, or insert at the end. *)
Fixpoint dict_set {K V : Type} (eqk : K -> K -> bool) (k : K) (v : V)
  (d : list (K * V)) : list (K * V) :=
  match d with
  | [] => [(k, v)]
  | (k', v') :: d' =>
      if eqk k k' then (k', v) :: d' else (k', v') :: dict_set eqk k v d'
  end.

(** [if k not in d: d[k] = []] followed by [d[k].append(x)]. *)
Fixpoint dict_append {K A : Type} (eqk : K -> K -> bool) (k : K) (x : A)
  (d : list (K * list A)) : list (K * list A) :=
  match d with
  | [] => [(k, [x])]
  | (k', xs) :: d' =>
      if eqk k k' then (k', xs ++ [x]) :: d' else (k', xs) :: dict_append eqk k x d'
  end.

(** [[l[i:i + n] for i in range(0, len(l), n)]], for [n > 0]. *)
Fixpoint chunks_fuel {A : Type} (fuel n : nat) (l : list A) : list (list A) :=
  match fuel with
  | O => []
  | S fuel' =>
      match l with
      | [] => []
      | _ => firstn n l :: chunks_fuel fuel' n (skipn n l)
      end
  end.

Definition chunks {A : Type} (n : nat) (l : list A) : list (list A) :=
  chunks_fuel (List.length l) n l.

(** ** Graph restorer ([Neo4jBackupRestore._restore_nodes_batch],
    [_restore_relations_batch] and the session part of [restore_backup])

    The database is reached only through [session.run]; it is a parameter
    [run] of the development: given the database state and a statement it
    returns the new state and either the returned rows or [None] when the
    driver raised.  Property maps are passed through untouched and are an
    abstract type. *)

Section Restore.

Variable Props : Type.
Variable DB : Type.

(** A node of the archive: [{"id", "labels", "properties"}]; a missing
    ["labels"] key reads as [[]] ([node.get("labels", [])]), a missing
    ["id"] as [None]. *)
Record node := mk_node {
  node_id : option Z;
  node_labels : list pystr;
  node_props : Props
}.

(** A relation of the archive: [{"source", "target", "type",
    "properties"}]; [rel_type = None] when the key is missing. *)
Record relation := mk_rel {
  rel_source : option Z;
  rel_target : option Z;
  rel_type : option pystr;
  rel_props : Props
}.

(** The statements the restorer issues. *)
Inductive query :=
| QCreateNodesBatch (labels_str : pystr) (batch : list Props)
    (* UNWIND $batch as item CREATE (n:{labels_str}) SET n = item.props
       RETURN id(n) as new_id *)
| QCreateNode (labels_str : pystr) (props : Props)
    (* CREATE (n:{labels_str} $props) RETURN id(n) as new_id *)
| QCreateRelsBatch (rel_type : pystr) (batch : list (Z * Z * Props))
    (* UNWIND ... CREATE (a)-[r:{rel_type}]->(b) ... RETURN count(r) *)
| QCreateRel (rel_type : pystr) (item : Z * Z * Props)
    (* MATCH ... CREATE (a)-[r:{rel_type} $props]->(b) *)
| QVerify.
    (* the counting queries of _verify_restore *)

Variable run : DB -> query -> DB * option (list Z).

Definition id_map := list (Z * Z).

Definition batch_size : nat := 500.

(** The label sanitisation of lines 586-593. *)
Definition safe_label (label : pystr) : pystr :=
  if validate_cypher_label label then label else sanitize_label label.

(** [labels_key = ":".join(sorted(safe_labels)) if safe_labels else "Node"]
    (line 595). *)
Definition labels_key (raw_labels : list pystr) : pystr :=
  match map safe_label raw_labels with
  | [] => Node_label
  | safe_labels => py_join (str ":") (py_sorted safe_labels)
  end.

Definition node_item := (option Z * Props)%type.

(** [nodes_by_labels] (lines 581-601). *)
Definition group_nodes (nodes : list node) : list (pystr * list node_item) :=
  fold_left
    (fun acc n => dict_append pystr_eqb (labels_key (node_labels n))
                    (node_id n, node_props n) acc)
    nodes [].

(** [for old_id, new_id in zip(batch_old_ids, new_ids):
       if old_id is not None: id_mapping[old_id] = new_id] *)
Definition map_ids (m : id_map) (old_ids : list (option Z)) (new_ids : list Z)
  : id_map :=
  fold_left
    (fun m p => match fst p with
                | Some o => dict_set Z.eqb o (snd p) m
                | None => m
                end)
    (combine old_ids new_ids) m.

Definition rstate := (DB * list query * id_map)%type.

(** The per-item fallback of lines 633-643. *)
Definition create_node_single (labels_str : pystr) (st : rstate) (item : node_item)
  : rstate :=
  let '(db, tr, m) := st in
  let q := QCreateNode labels_str (snd item) in
  match run db q with
  | (db', Some rows) =>
      (db', tr ++ [q],
       match rows, fst item with
       | new_id :: _, Some old_id => dict_set Z.eqb old_id new_id m
       | _, _ => m
       end)
  | (db', None) => (db', tr ++ [q], m)
  end.

(** One batch (lines 609-643). *)
Definition create_nodes_batch (labels_str : pystr) (st : rstate)
  (batch : list node_item) : rstate :=
  let '(db, tr, m) := st in
  let q := QCreateNodesBatch labels_str (map snd batch) in
  match run db q with
  | (db', Some new_ids) => (db', tr ++ [q], map_ids m (map fst batch) new_ids)
  | (db', None) => fold_left (create_node_single labels_str) batch (db', tr ++ [q], m)
  end.

(** [_restore_nodes_batch]: returns the database, the statements issued so
    far and [id_mapping]. *)
Definition restore_nodes_batch (nodes : list node) (db : DB) (tr : list query)
  : rstate :=
  fold_left
    (fun st g => fold_left (create_nodes_batch (fst g)) (chunks batch_size (snd g)) st)
    (group_nodes nodes) (db, tr, []).

Definition rel_item := (Z * Z * Props)%type.

(** [x in id_mapping] / [id_mapping[x]]; [None] (a missing key of the
    relation) is never a key of [id_mapping]. *)
Definition lookup_old (m : id_map) (o : option Z) : option Z :=
  match o with
  | Some k => dict_get Z.eqb k m
  | None => None
  end.

Definition RELATED_TO : pystr := str "RELATED_TO".

(** Lines 678-682. *)
Definition safe_rel_type (raw_type : pystr) : pystr :=
  if validate_cypher_rel_type raw_type then raw_type else sanitize_label raw_type.

(** One iteration of the grouping loop (lines 668-691). *)
Definition group_rel (m : id_map) (acc : list (pystr * list rel_item))
  (r : relation) : list (pystr * list rel_item) :=
  match lookup_old m (rel_source r), lookup_old m (rel_target r) with
  | Some s, Some t =>
      let raw_type := match rel_type r with Some t => t | None => RELATED_TO end in
      dict_append pystr_eqb (safe_rel_type raw_type) (s, t, rel_props r) acc
  | _, _ => acc
  end.

Definition group_rels (m : id_map) (rels : list relation)
  : list (pystr * list rel_item) :=
  fold_left (group_rel m) rels [].

Definition relstate := (DB * list query * Z)%type.

(** The per-item fallback of lines 718-732. *)
Definition create_rel_single (rt : pystr) (st : relstate) (item : rel_item)
  : relstate :=
  let '(db, tr, n) := st in
  let q := QCreateRel rt item in
  match run db q with
  | (db', Some _) => (db', tr ++ [q], (n + 1)%Z)
  | (db', None) => (db', tr ++ [q], n)
  end.

(** One batch (lines 698-732): [restored_rels += record["created"]]. *)
Definition create_rels_batch (rt : pystr) (st : relstate) (batch : list rel_item)
  : relstate :=
  let '(db, tr, n) := st in
  let q := QCreateRelsBatch rt batch in
  match run db q with
  | (db', Some rows) =>
      (db', tr ++ [q], (n + match rows with c :: _ => c | [] => 0 end)%Z)
  | (db', None) => fold_left (create_rel_single rt) batch (db', tr ++ [q], n)
  end.

(** [_restore_relations_batch]: returns the database, the statements and
    [restored_rels]. *)
Definition restore_relations_batch (rels : list relation) (m : id_map)
  (db : DB) (tr : list query) : relstate :=
  fold_left
    (fun st g => fold_left (create_rels_batch (fst g)) (chunks batch_size (snd g)) st)
    (group_rels m rels) (db, tr, 0%Z).

(** Step 5-6 of [restore_backup] (lines 424-440): nodes, relations, then
    [_verify_restore]; an exception of the verification is caught and makes
    [restore_backup] return [False].  The result collects everything the run
    leaves behind: final database, issued statements, [restored_rels] and the
    returned boolean. *)
Definition restore_session (nodes : list node) (rels : list relation) (db : DB)
  : DB * list query * Z * bool :=
  let '(db1, tr1, m) := restore_nodes_batch nodes db [] in
  let '(db2, tr2, restored) := restore_relations_batch rels m db1 tr1 in
  match run db2 QVerify with
  | (db3, Some _) => (db3, tr2 ++ [QVerify], restored, true)
  | (db3, None) => (db3, tr2 ++ [QVerify], restored, false)
  end.

End Restore.

Arguments mk_node {Props}.
Arguments mk_rel {Props}.
Arguments node_id {Props}.
Arguments node_labels {Props}.
Arguments node_props {Props}.
Arguments rel_source {Props}.
Arguments rel_target {Props}.
Arguments rel_type {Props}.
Arguments rel_props {Props}.
Arguments QCreateNodesBatch {Props}.
Arguments QCreateNode {Props}.
Arguments QCreateRelsBatch {Props}.
Arguments QCreateRel {Props}.
Arguments QVerify {Props}.
Arguments group_nodes {Props}.
Arguments create_node_single {Props DB}.
Arguments create_nodes_batch {Props DB}.
Arguments restore_nodes_batch {Props DB}.
Arguments group_rel {Props}.
Arguments group_rels {Props}.
Arguments create_rel_single {Props DB}.
Arguments create_rels_batch {Props DB}.
Arguments restore_relations_batch {Props DB}.
Arguments restore_session {Props DB}.

(** The labels string a node-creation statement splices into its text. *)
Definition node_query_labels {Props : Type} (q : query Props) : option pystr :=
  match q with
  | QCreateNodesBatch k _ => Some k
  | QCreateNode k _ => Some k
  | _ => None
  end.

Definition opt_z_eqb (a b : option Z) : bool :=
  match a, b with
  | Some x, Some y => (x =? y)%Z
  | None, None => true
  | _, _ => false
  end.

(** An endpoint reference that no node of the archive carries (a missing
    reference carries nothing). *)
Definition absent_from {Props : Type} (nodes : list (node Props)) (o : option Z)
  : bool :=
  match o with
  | None => true
  | Some k => forallb (fun n => negb (opt_z_eqb (node_id n) (Some k))) nodes
  end.

(** A database double for concrete runs: the state is the next identifier;
    every statement succeeds, node creations return fresh identifiers in
    submission order, a relationship batch reports its size as [created]. *)
Definition demo_run (db : Z) (q : query unit) : Z * option (list Z) :=
  match q with
  | QCreateNodesBatch _ b =>
      ((db + Z.of_nat (List.length b))%Z,
       Some (map (fun i => (db + Z.of_nat i)%Z) (seq 0 (List.length b))))
  | QCreateNode _ _ => ((db + 1)%Z, Some [db])
  | QCreateRelsBatch _ b => (db, Some [Z.of_nat (List.length b)])
  | QCreateRel _ _ => (db, Some [])
  | QVerify => (db, Some [])
  end.

(** ** Clearing the target before a restore

    The graph is summarised by its node and relationship counts.
    [MATCH ()-[r]->() DELETE r] removes every relationship;
    [MATCH (n) DELETE n] fails while relationships remain (Neo4j refuses to
    leave dangling edges).  Whether the server accepts a statement at all
    (network errors, timeouts, ...) is the parameter [ok]. *)

Record graph := mk_graph { g_nodes : nat; g_rels : nat }.

Inductive stmt := SCountNodes | SCountRels | SDeleteRels | SDeleteNodes | SCommit.

Section Clear.

Variable ok : stmt -> graph -> bool.

(** Running one statement; [None] when the driver raises. *)
Definition exec (s : stmt) (g : graph) : option graph :=
  if ok s g then
    match s with
    | SDeleteRels => Some (mk_graph (g_nodes g) 0)
    | SDeleteNodes =>
        if Nat.eqb (g_rels g) 0 then Some (mk_graph 0 0) else None
    | _ => Some g
    end
  else None.

Definition cleared : graph := mk_graph 0 0.

(** [Neo4jBackupRestore._prepare_database_for_restore]
    (src/backend/neo4j_backup_restore.py lines 531-567).  [confirmed] is
    [confirm.lower() == 'yes'] for the answer of [input_with_timeout].  The
    deletions run in [with session.begin_transaction() as tx:]: they work on
    a transaction-local copy that [tx.commit()] publishes; an exception
    leaves the block, the transaction is rolled back, and the outer
    [except] returns [False].  Result: final graph, statements issued, and
    the returned boolean. *)
Definition prepare_database_for_restore (confirmed : bool) (g : graph)
  : graph * list stmt * bool :=
  match exec SCountNodes g with
  | None => (g, [SCountNodes], false)
  | Some _ =>
    match exec SCountRels g with
    | None => (g, [SCountNodes; SCountRels], false)
    | Some _ =>
      let tr0 := [SCountNodes; SCountRels] in
      if (0 <? g_nodes g) || (0 <? g_rels g) then
        if confirmed then
          match exec SDeleteRels g with
          | None => (g, tr0 ++ [SDeleteRels], false)
          | Some t1 =>
            match exec SDeleteNodes t1 with
            | None => (g, tr0 ++ [SDeleteRels; SDeleteNodes], false)
            | Some t2 =>
              match exec SCommit t2 with
              | None => (g, tr0 ++ [SDeleteRels; SDeleteNodes; SCommit], false)
              | Some t3 => (t3, tr0 ++ [SDeleteRels; SDeleteNodes; SCommit], true)
              end
            end
          end
        else (g, tr0, true)
      else (g, tr0, true)
    end
  end.

(** The clearing step of the older [restore_backup]
    (src/neo4j_backup_restore.py lines 253-275): two auto-commit
    [session.run] calls; an exception is caught by the [except] of line 396
    and the function returns [False], with whatever the first statement
    already committed. *)
Definition restore_clear_root (confirmed : bool) (g : graph)
  : graph * list stmt * bool :=
  match exec SCountNodes g with
  | None => (g, [SCountNodes], false)
  | Some _ =>
    match exec SCountRels g with
    | None => (g, [SCountNodes; SCountRels], false)
    | Some _ =>
      let tr0 := [SCountNodes; SCountRels] in
      if (0 <? g_nodes g) || (0 <? g_rels g) then
        if confirmed then
          match exec SDeleteRels g with
          | None => (g, tr0 ++ [SDeleteRels], false)
          | Some g1 =>
            match exec SDeleteNodes g1 with
            | None => (g1, tr0 ++ [SDeleteRels; SDeleteNodes], false)
            | Some g2 => (g2, tr0 ++ [SDeleteRels; SDeleteNodes], true)
            end
          end
        else (g, tr0, true)
      else (g, tr0, true)
    end
  end.

End Clear.

(** ** Safe extraction of a zip bundle
    ([Neo4jBackupRestore._extract_backup_safe], lines 442-492)

    Paths are lists of components.  The fresh directory [temp_dir] made by
    [tempfile.mkdtemp] is absolute; the file system below it and the
    directories a member can reach are taken to contain no symbolic links, so
    [Path.resolve] is the lexical normalisation of [.] and [..]. *)

Definition slash : N := 47%N.

(** [s.split(sep)]. *)
Fixpoint split_on (sep : N) (s : pystr) : list pystr :=
  match s with
  | [] => [[]]
  | c :: s' =>
      if (c =? sep)%N then [] :: split_on sep s'
      else match split_on sep s' with
           | [] => [[c]]
           | w :: ws => (c :: w) :: ws
           end
  end.

Definition is_dot (c : pystr) : bool := pystr_eqb c (str ".").
Definition is_dotdot (c : pystr) : bool := pystr_eqb c (str "..").
Definition is_empty (c : pystr) : bool := pystr_eqb c [].

(** [Path(member).is_absolute()] on POSIX. *)
Definition is_absolute (member : pystr) : bool :=
  match member with
  | c :: _ => (c =? slash)%N
  | [] => false
  end.

(** Resolution of the components [comps] from the reversed directory
    [acc]: [..] goes to the parent (and stays at the root), [.] and empty
    components are dropped. *)
Fixpoint resolve_from (acc : list pystr) (comps : list pystr) : list pystr :=
  match comps with
  | [] => rev acc
  | c :: cs =>
      if is_empty c || is_dot c then resolve_from acc cs
      else if is_dotdot c then resolve_from (tl acc) cs
      else resolve_from (c :: acc) cs
  end.

(** [(temp_dir / member).resolve()] for a relative [member]. *)
Definition resolve_under (temp_dir : list pystr) (member : pystr) : list pystr :=
  resolve_from (rev temp_dir) (split_on slash member).

(** [str(p)] of an absolute path. *)
Definition path_str (p : list pystr) : pystr := slash :: py_join [slash] p.

Definition py_startswith (s prefix : pystr) : bool :=
  pystr_eqb (firstn (List.length prefix) s) prefix.

Definition py_endswith (s suffix : pystr) : bool :=
  py_startswith (rev s) (rev suffix).

(** [ZipFile.extract(member, temp_dir)] (CPython [_extract_member]): the
    empty, [.] and [..] components of the member name are dropped and the
    rest is joined to the target directory. *)
Definition zip_extract_target (temp_dir : list pystr) (member : pystr)
  : list pystr :=
  temp_dir ++ filter (fun c => negb (is_empty c || is_dot c || is_dotdot c))
                (split_on slash member).

Inductive member_outcome :=
| RejectedAbsolute
| RejectedTraversal
| NotJson
| Extracted (written : list pystr).

(** The body of the loop over [zf.namelist()]. *)
Definition extract_member (temp_dir : list pystr) (member : pystr) : member_outcome :=
  if is_absolute member then RejectedAbsolute
  else
    let target_path := resolve_under temp_dir member in
    if negb (py_startswith (path_str target_path) (path_str temp_dir))
    then RejectedTraversal
    else if py_endswith member (str ".json")
    then Extracted (zip_extract_target temp_dir member)
    else NotJson.

Definition extract_members (temp_dir : list pystr) (members : list pystr)
  : list (pystr * member_outcome) :=
  map (fun m => (m, extract_member temp_dir m)) members.

Fixpoint path_eqb (p q : list pystr) : bool :=
  match p, q with
  | [], [] => true
  | a :: p', b :: q' => pystr_eqb a b && path_eqb p' q'
  | _, _ => false
  end.

(** [p] is [dir] or lies below it, component-wise. *)
Definition within (dir p : list pystr) : bool :=
  path_eqb (firstn (List.length dir) p) dir.

(** ** JSON values and [json.dump(..., indent=2, ensure_ascii=False)] *)

Set Warnings "-register-all".

Inductive jvalue :=
| JNull
| JBool (b : bool)
| JInt (z : Z)
| JFloat (repr : pystr)
| JStr (s : pystr)
| JList (l : list jvalue)
| JObject (kvs : list (pystr * jvalue)).

Definition hex_digit (n : N) : N := if (n <? 10)%N then (48 + n)%N else (87 + n)%N.

(** [json.encoder.py_encode_basestring] ([ensure_ascii=False]): the
    characters of [ESCAPE_DCT], other control characters as [\u00XX]. *)
Definition escape_char (c : N) : pystr :=
  if (c =? 34)%N then [92; 34]%N
  else if (c =? 92)%N then [92; 92]%N
  else if (c =? 10)%N then [92; 110]%N
  else if (c =? 13)%N then [92; 114]%N
  else if (c =? 9)%N then [92; 116]%N
  else if (c =? 8)%N then [92; 98]%N
  else if (c =? 12)%N then [92; 102]%N
  else if (c <? 32)%N then
    [92; 117; 48; 48; hex_digit (c / 16); hex_digit (c mod 16)]%N
  else [c].

Definition quote (s : pystr) : pystr := 34%N :: flat_map escape_char s ++ [34%N].

(** Decimal digits of [n], accumulated in front of [acc]. *)
Fixpoint digits_fuel (fuel : nat) (n : N) (acc : pystr) : pystr :=
  match fuel with
  | O => acc
  | S fuel' =>
      let acc' := (48 + n mod 10)%N :: acc in
      if (n <? 10)%N then acc' else digits_fuel fuel' (n / 10)%N acc'
  end.

Definition n_repr (n : N) : pystr := digits_fuel (S (N.size_nat n)) n [].

(** [int.__repr__]. *)
Definition z_repr (z : Z) : pystr :=
  match z with
  | Zneg p => 45%N :: n_repr (Npos p)
  | _ => n_repr (Z.to_N z)
  end.

Definition newline_indent (lvl : nat) : pystr := 10%N :: repeat 32%N (2 * lvl).

(** The text [json.dump] writes at nesting level [lvl]. *)
Fixpoint dumps (lvl : nat) (v : jvalue) : pystr :=
  match v with
  | JNull => str "null"
  | JBool true => str "true"
  | JBool false => str "false"
  | JInt z => z_repr z
  | JFloat r => r
  | JStr s => quote s
  | JList [] => str "[]"
  | JList l =>
      [91%N] ++ py_join [44%N] (map (fun x => newline_indent (S lvl) ++ dumps (S lvl) x) l)
      ++ newline_indent lvl ++ [93%N]
  | JObject [] => str "{}"
  | JObject kvs =>
      [123%N] ++ py_join [44%N]
        (map (fun '(k, x) => newline_indent (S lvl) ++ quote k ++ str ": " ++ dumps (S lvl) x) kvs)
      ++ newline_indent lvl ++ [125%N]
  end.

(** Bytes of the UTF-8 encoding of one code point. *)
Definition utf8_len (c : N) : Z :=
  if (c <? 128)%N then 1%Z
  else if (c <? 2048)%N then 2%Z
  else if (c <? 65536)%N then 3%Z
  else 4%Z.

(** [json_file.stat().st_size] after writing [text] with
    [encoding='utf-8']. *)
Definition utf8_size (text : pystr) : Z := fold_right (fun c n => (utf8_len c + n)%Z) 0%Z text.

(** The [backup_data] dictionary of [create_backup] (backend lines
    239-254); the metadata object is kept abstract. *)
Definition backup_data (metadata : jvalue) (nodes relations : list jvalue) : jvalue :=
  JObject [(str "metadata", metadata); (str "nodes", JList nodes);
           (str "relations", JList relations)].

(** Python's [/] on numbers; [None] is [ZeroDivisionError].  Only whether a
    division raises matters here, so values are exact rationals. *)
Definition py_truediv (a b : Q) : option Q :=
  if Qeq_bool b 0 then None else Some (a / b).

Definition bind_opt {A B : Type} (x : option A) (k : A -> option B) : option B :=
  match x with Some a => k a | None => None end.

Notation "x <- c ;; k" := (bind_opt c (fun x => k))
  (at level 61, c at next level, right associativity).

(** The arithmetic of [_save_backup_files] (backend lines 345-378):
    megabytes of the data file, the guarded compression ratio, megabytes of
    the bundle. *)
Definition save_backup_files_arith (file_size zip_size : Z) : option (Q * Q * Q) :=
  mb1 <- py_truediv (inject_Z file_size) 1024 ;;
  mb <- py_truediv mb1 1024 ;;
  compression <-
    (if (file_size >? 0)%Z then
       r <- py_truediv (inject_Z zip_size) (inject_Z file_size) ;;
       Some ((1 - r) * 100)%Q
     else Some 0%Q) ;;
  zmb1 <- py_truediv (inject_Z zip_size) 1024 ;;
  zmb <- py_truediv zmb1 1024 ;;
  Some (mb, compression, zmb).

(** The same arithmetic in the older [create_backup]
    (src/neo4j_backup_restore.py lines 171-199), without the guard. *)
Definition create_backup_arith_root (file_size zip_size : Z) : option (Q * Q * Q) :=
  mb1 <- py_truediv (inject_Z file_size) 1024 ;;
  mb <- py_truediv mb1 1024 ;;
  r <- py_truediv (inject_Z zip_size) (inject_Z file_size) ;;
  let compression := ((1 - r) * 100)%Q in
  zmb1 <- py_truediv (inject_Z zip_size) 1024 ;;
  zmb <- py_truediv zmb1 1024 ;;
  Some (mb, compression, zmb).

(** ** The backup ledger [BACKUP_LOG.json]

    The text of the ledger file is the sequence of JSON documents it holds,
    written one after the other: [json.load] succeeds exactly when there is
    one ([Expecting value] on none, [Extra data] on more). *)

Inductive ledger_file :=
| LedgerMissing
| LedgerText (docs : list jvalue).

Definition json_load (docs : list jvalue) : option jvalue :=
  match docs with
  | [v] => Some v
  | _ => None
  end.

(** [Neo4jBackupRestore._update_log] (backend lines 767-803); [None] when
    [log_data.append] raises (the loaded value is not a list). *)
Definition update_log (entry : jvalue) (f : ledger_file) : option ledger_file :=
  let log_data :=
    match f with
    | LedgerMissing => JList []
    | LedgerText docs =>
        match json_load docs with
        | Some v => v
        | None => JList []   (* "Log corrompido, criando novo" *)
        end
    end in
  match log_data with
  | JList l => Some (LedgerText [JList (l ++ [entry])])
  | _ => None
  end.

(** The records held by a ledger file: the elements of a list document, the
    values of an object document. *)
Definition doc_entries (d : jvalue) : list jvalue :=
  match d with
  | JList l => l
  | JObject kvs => map snd kvs
  | _ => []
  end.

Definition ledger_entries (f : ledger_file) : list jvalue :=
  match f with
  | LedgerMissing => []
  | LedgerText docs => flat_map doc_entries docs
  end.

Definition ledger_parses (f : ledger_file) : bool :=
  match f with
  | LedgerMissing => true
  | LedgerText docs => match json_load docs with Some _ => true | None => false end
  end.

(** ** Proof vocabulary and concrete inputs *)

Definition tr_of {Props DB : Type} (st : rstate Props DB) : list (query Props) :=
  snd (fst st).

Definition map_of {Props DB : Type} (st : rstate Props DB) : id_map := snd st.

Definition labelled {Props : Type} (k : pystr) (q : query Props) : Prop :=
  node_query_labels q = Some k.

(** The loop over [nodes_by_labels.items()] of [_restore_nodes_batch]. *)
Definition restore_groups {Props DB : Type}
  (run : DB -> query Props -> DB * option (list Z))
  (groups : list (pystr * list (node_item Props))) (st : rstate Props DB)
  : rstate Props DB :=
  fold_left
    (fun st g => fold_left (create_nodes_batch run (fst g)) (chunks batch_size (snd g)) st)
    groups st.

(** Every key of an identifier map is the id of an archive node. *)
Definition keys_from {Props : Type} (nodes : list (node Props)) (m : id_map) : Prop :=
  forall k v, In (k, v) m -> exists n, In n nodes /\ node_id n = Some k.

Definition items_ok {Props : Type} (nodes : list (node Props))
  (items : list (node_item Props)) : Prop :=
  forall it, In it items -> exists n, In n nodes /\ it = (node_id n, node_props n).

(** Concrete archives for the restorer. *)
Definition sample_node (i : Z) (labels : list pystr) : node unit :=
  mk_node (Some i) labels tt.

Definition sample_rel (s t : Z) : relation unit :=
  mk_rel (Some s) (Some t) (Some (str "FRIENDS_WITH")) tt.

(** [true] when no [SDeleteNodes] comes before the first [SDeleteRels]. *)
Fixpoint rels_before_nodes (seen_rels : bool) (tr : list stmt) : bool :=
  match tr with
  | [] => true
  | SDeleteRels :: tr' => rels_before_nodes true tr'
  | SDeleteNodes :: tr' => seen_rels && rels_before_nodes seen_rels tr'
  | _ :: tr' => rels_before_nodes seen_rels tr'
  end.

(** A server that drops the connection on the node deletion. *)
Definition fail_on_delete_nodes (s : stmt) (g : graph) : bool :=
  match s with
  | SDeleteNodes => false
  | _ => true
  end.

Definition sample_temp_dir : list pystr := [str "tmp"; str "neo4j_restore_abc12345"].

Definition entry_a : jvalue := JObject [(str "hash", JStr (str "aa"))].
Definition entry_b : jvalue := JObject [(str "hash", JStr (str "bb"))].

(** ** Cypher string literals

    [sanitize_cypher_string] (utils.py lines 155-170) escapes a value that
    its callers splice between single quotes
    ([f"{key}: '{safe_value}'"], utils.py line 199).  The older restore
    (src/neo4j_backup_restore.py lines 296-298 and 345-347) escapes the
    single quote only.  The server reads such text with Cypher's grammar of
    string literals: inside ['...'] a backslash starts one of the escapes
    [\t], [\b], [\n], [\r], [\f], [\uXXXX], [\UXXXXXXXX], or a backslash
    followed by a backslash, a single quote or a double quote; every other
    character but the single quote stands for itself, and the first
    unescaped single quote ends the literal. *)

Definition backslash : N := 92%N.
Definition squote : N := 39%N.
Definition dquote : N := 34%N.

(** [s.replace(old, new)] for a one-character [old]. *)
Definition py_replace_char (old : N) (new s : pystr) : pystr :=
  flat_map (fun c => if (c =? old)%N then new else [c]) s.

(** [sanitize_cypher_string(value)] for a [str] argument: backslashes are
    doubled, then a backslash is put before every single quote, then before
    every double quote (three chained [str.replace] calls). *)
Definition sanitize_cypher_string (value : pystr) : pystr :=
  py_replace_char dquote [backslash; dquote]
    (py_replace_char squote [backslash; squote]
       (py_replace_char backslash [backslash; backslash] value)).

(** The older restore's [str.replace] that puts a backslash before every
    single quote. *)
Definition root_escape_value (value : pystr) : pystr :=
  py_replace_char squote [backslash; squote] value.

Definition hex_value (c : N) : option N :=
  if (48 <=? c)%N && (c <=? 57)%N then Some (c - 48)%N
  else if (97 <=? c)%N && (c <=? 102)%N then Some (c - 87)%N
  else if (65 <=? c)%N && (c <=? 70)%N then Some (c - 55)%N
  else None.

Fixpoint hex_number (acc : N) (hs : pystr) : option N :=
  match hs with
  | [] => Some acc
  | h :: hs' =>
      match hex_value h with
      | Some d => hex_number (16 * acc + d)%N hs'
      | None => None
      end
  end.

(** The one-letter escapes and the characters they stand for. *)
Definition cypher_simple_escape (e : N) : option N :=
  if (e =? 116)%N then Some 9%N
  else if (e =? 98)%N then Some 8%N
  else if (e =? 110)%N then Some 10%N
  else if (e =? 114)%N then Some 13%N
  else if (e =? 102)%N then Some 12%N
  else if (e =? squote)%N then Some squote
  else if (e =? dquote)%N then Some dquote
  else if (e =? backslash)%N then Some backslash
  else None.

Definition cons_value (c : N) (r : option (pystr * pystr)) : option (pystr * pystr) :=
  match r with
  | Some (v, rest) => Some (c :: v, rest)
  | None => None
  end.

(** The rest of a single-quoted literal whose opening quote has been read:
    the value of the literal and the text after its closing quote, or
    [None] on a syntax error (unknown escape, unterminated literal). *)
Fixpoint cypher_sq_body (s : pystr) : option (pystr * pystr) :=
  match s with
  | [] => None
  | c :: s1 =>
      if (c =? squote)%N then Some ([], s1)
      else if (c =? backslash)%N then
        match s1 with
        | [] => None
        | e :: s2 =>
            match cypher_simple_escape e with
            | Some d => cons_value d (cypher_sq_body s2)
            | None =>
                if (e =? 117)%N then
                  match s2 with
                  | h1 :: h2 :: h3 :: h4 :: s3 =>
                      match hex_number 0 [h1; h2; h3; h4] with
                      | Some d => cons_value d (cypher_sq_body s3)
                      | None => None
                      end
                  | _ => None
                  end
                else if (e =? 85)%N then
                  match s2 with
                  | h1 :: h2 :: h3 :: h4 :: h5 :: h6 :: h7 :: h8 :: s3 =>
                      match hex_number 0 [h1; h2; h3; h4; h5; h6; h7; h8] with
                      | Some d => cons_value d (cypher_sq_body s3)
                      | None => None
                      end
                  | _ => None
                  end
                else None
            end
        end
      else cons_value c (cypher_sq_body s1)
  end.

(** A literal at the start of [s]: the opening quote, then the body. *)
Definition cypher_sq_literal (s : pystr) : option (pystr * pystr) :=
  match s with
  | c :: s1 => if (c =? squote)%N then cypher_sq_body s1 else None
  | [] => None
  end.

(** ** [format_properties_for_cypher] (utils.py lines 173-229) *)

(** The Python values a property dictionary holds.  A float is given by
    its [repr] (which is also its [str] and its f-string text); [PObj]
    stands for any other object. *)
Inductive pyval :=
| PNone
| PBool (b : bool)
| PInt (z : Z)
| PFloat (repr : pystr)
| PStr (s : pystr)
| PList (items : list pyval)
| PDict (entries : list (pystr * pyval))
| PObj (name : pystr).

(** [str(value).lower()] of a [bool]. *)
Definition bool_text (b : bool) : pystr := if b then str "true" else str "false".

(** [f"'{x}'"]. *)
Definition single_quoted (x : pystr) : pystr := [squote] ++ x ++ [squote].

Section Format.

(** [str(x)] of a list, dict or other object, and [json.dumps(x)] of a
    dict ([None] when it raises), taken from the Python runtime as they
    are. *)
Variable py_str : pyval -> pystr.
Variable json_dumps : pyval -> option pystr.

(** One element of a list value (lines 206-217); [None] is skipped. *)
Definition render_item (item : pyval) : option pystr :=
  match item with
  | PNone => None
  | PStr s => Some (single_quoted (sanitize_cypher_string s))
  | PBool b => Some (bool_text b)
  | PInt z => Some (z_repr z)
  | PFloat r => Some r
  | _ => Some (single_quoted (sanitize_cypher_string (py_str item)))
  end.

(** The text after [key: ] for one value (lines 194-227): [Some None] when
    the value is [None] and the entry is skipped, [None] when
    [json.dumps] raises. *)
Definition render_value (value : pyval) : option (option pystr) :=
  match value with
  | PNone => Some None
  | PStr s => Some (Some (single_quoted (sanitize_cypher_string s)))
  | PBool b => Some (Some (bool_text b))
  | PInt z => Some (Some (z_repr z))
  | PFloat r => Some (Some r)
  | PList items =>
      Some (Some ([91%N] ++ py_join (str ", ")
                    (flat_map (fun i => match render_item i with
                                        | Some t => [t]
                                        | None => []
                                        end) items) ++ [93%N]))
  | PDict _ =>
      match json_dumps value with
      | Some t => Some (Some (single_quoted (sanitize_cypher_string t)))
      | None => None
      end
  | PObj _ => Some (Some (single_quoted (sanitize_cypher_string (py_str value))))
  end.

(** The key check of lines 187-192. *)
Definition prop_key (key : pystr) : pystr :=
  if validate_cypher_identifier key then key
  else sanitize_cypher_identifier key (str "prop").

(** The list [formatted] of the loop, as (key, value text) pairs; [None]
    when the loop raises. *)
Fixpoint format_entries (props : list (pystr * pyval)) : option (list (pystr * pystr)) :=
  match props with
  | [] => Some []
  | (k, v) :: rest =>
      match render_value v with
      | None => None
      | Some r =>
          match format_entries rest with
          | None => None
          | Some es =>
              Some (match r with
                    | Some t => (prop_key k, t) :: es
                    | None => es
                    end)
          end
      end
  end.

Definition format_properties_for_cypher (props : list (pystr * pyval)) : option pystr :=
  match props with
  | [] => Some (str "{}")
  | _ =>
      match format_entries props with
      | Some es =>
          Some ([123%N] ++ py_join (str ", ") (map (fun e => fst e ++ str ": " ++ snd e) es)
                ++ [125%N])
      | None => None
      end
  end.

End Format.


(** ** [safe_get_line] (utils.py lines 58-78) *)

(** [str.isspace]: the code points [str.strip()] removes. *)
Definition py_isspace (c : N) : bool :=
  ((9 <=? c)%N && (c <=? 13)%N) || ((28 <=? c)%N && (c <=? 32)%N) ||
  (c =? 133)%N || (c =? 160)%N || (c =? 5760)%N ||
  ((8192 <=? c)%N && (c <=? 8202)%N) || (c =? 8232)%N || (c =? 8233)%N ||
  (c =? 8239)%N || (c =? 8287)%N || (c =? 12288)%N.

Fixpoint lstrip_ws (s : pystr) : pystr :=
  match s with
  | c :: s' => if py_isspace c then lstrip_ws s' else s
  | [] => []
  end.

(** [s.strip()]. *)
Definition py_strip (s : pystr) : pystr := rev (lstrip_ws (rev (lstrip_ws s))).

Definition safe_get_line (text : option pystr) (index : Z) (default : pystr) : pystr :=
  match text with
  | None => default
  | Some t =>
      match py_strip t with
      | [] => default
      | stripped =>
          let lines := split_on 10%N stripped in
          if (index <? 0)%Z || (Z.of_nat (List.length lines) <=? index)%Z then default
          else py_strip (nth (Z.to_nat index) lines [])
      end
  end.

(** ** [_validate_backup_schema] (backend lines 494-529)

    The argument is whatever [json.load] returned: any JSON value.  [None]
    is an exception (a [TypeError] of [in] or of the subscript). *)

(** [key in container]. *)
Fixpoint py_substr_in (needle hay : pystr) : bool :=
  py_startswith hay needle ||
  match hay with
  | [] => false
  | _ :: hay' => py_substr_in needle hay'
  end.

Definition py_in (key : pystr) (container : jvalue) : option bool :=
  match container with
  | JObject kvs => Some (existsb (fun kv => pystr_eqb (fst kv) key) kvs)
  | JList l => Some (existsb (fun x => match x with
                                       | JStr s => pystr_eqb s key
                                       | _ => false
                                       end) l)
  | JStr s => Some (py_substr_in key s)
  | _ => None
  end.

(** [container[key]] with a string key. *)
Definition py_getitem (container : jvalue) (key : pystr) : option jvalue :=
  match container with
  | JObject kvs => dict_get pystr_eqb key kvs
  | _ => None
  end.

Definition required_keys : list pystr := [str "metadata"; str "nodes"; str "relations"].

(** [for key in required_keys: if key not in backup_data: return False]. *)
Fixpoint check_required (backup_data : jvalue) (keys : list pystr) : option bool :=
  match keys with
  | [] => Some true
  | k :: ks =>
      match py_in k backup_data with
      | None => None
      | Some false => Some false
      | Some true => check_required backup_data ks
      end
  end.

Definition validate_backup_schema (backup_data : jvalue) : option bool :=
  match check_required backup_data required_keys with
  | None => None
  | Some false => Some false
  | Some true =>
      match py_getitem backup_data (str "metadata") with
      | None => None
      | Some (JObject _) =>
          match py_getitem backup_data (str "nodes") with
          | None => None
          | Some (JList nodes) =>
              match py_getitem backup_data (str "relations") with
              | None => None
              | Some (JList _) =>
                  match nodes with
                  | [] => Some true
                  | sample_node :: _ =>
                      match sample_node with
                      | JObject _ =>
                          match py_in (str "labels") sample_node,
                                py_in (str "properties") sample_node with
                          | Some false, Some false => Some false
                          | Some _, Some _ => Some true
                          | _, _ => None
                          end
                      | _ => Some false
                      end
                  end
              | Some _ => Some false
              end
          | Some _ => Some false
          end
      | Some _ => Some false
      end
  end.

(** ** The confirmation prompt ([input_with_timeout], backend lines 77-113) *)

(** What happens at the prompt of an interactive run. *)
Inductive prompt_event :=
| Answered (line : pystr)
| TimedOut
| EndOfInput.

Definition input_with_timeout (isatty : bool) (ev : prompt_event) (default : pystr) : pystr :=
  if isatty then
    match ev with
    | Answered line => line
    | TimedOut => default
    | EndOfInput => default
    end
  else default.

(** [confirm.lower() == 'yes'] for the prompt of
    [_prepare_database_for_restore] (default ["no"]); [lower] is
    [str.lower]. *)
Definition confirm_clear (lower : pystr -> pystr) (isatty : bool) (ev : prompt_event) : bool :=
  pystr_eqb (lower (input_with_timeout isatty ev (str "no"))) (str "yes").


(** ** Statements issued by the restorer, by origin *)

(** A node statement made from the groups [groups]: the batched statement
    of one of their chunks, or the fallback statement of one of their
    items. *)
Definition node_query_from {Props : Type} (groups : list (pystr * list (node_item Props)))
  (q : query Props) : Prop :=
  exists g, In g groups /\
    ((exists b, In b (chunks batch_size (snd g)) /\ q = QCreateNodesBatch (fst g) (map snd b)) \/
     (exists it, In it (snd g) /\ q = QCreateNode (fst g) (snd it))).

Definition rel_query_from {Props : Type} (groups : list (pystr * list (rel_item Props)))
  (q : query Props) : Prop :=
  exists g, In g groups /\
    ((exists b, In b (chunks batch_size (snd g)) /\ q = QCreateRelsBatch (fst g) b) \/
     (exists it, In it (snd g) /\ q = QCreateRel (fst g) it)).

Definition rtr_of {Props DB : Type} (st : relstate Props DB) : list (query Props) :=
  snd (fst st).

(** The loop over [rels_by_type.items()] of [_restore_relations_batch]. *)
Definition restore_rel_groups {Props DB : Type}
  (run : DB -> query Props -> DB * option (list Z))
  (groups : list (pystr * list (rel_item Props))) (st : relstate Props DB)
  : relstate Props DB :=
  fold_left
    (fun st g => fold_left (create_rels_batch run (fst g)) (chunks batch_size (snd g)) st)
    groups st.

(** A labels string spliced into a [CREATE (n:...)]: labels joined by
    [:], each accepted by [validate_cypher_label]. *)
Definition labels_text_ok (k : pystr) : Prop :=
  exists comps, k = py_join (str ":") comps /\ comps <> [] /\
                Forall (fun c => validate_cypher_label c = true) comps.

(** What a statement splices into its text is validated. *)
Definition spliced_ok {Props : Type} (q : query Props) : Prop :=
  match q with
  | QCreateNodesBatch k _ => labels_text_ok k
  | QCreateNode k _ => labels_text_ok k
  | QCreateRelsBatch t _ => validate_cypher_rel_type t = true
  | QCreateRel t _ => validate_cypher_rel_type t = true
  | QVerify => True
  end.

(** An [UNWIND $batch] statement carries between 1 and [batch_size]
    items. *)
Definition batch_bounded {Props : Type} (q : query Props) : Prop :=
  match q with
  | QCreateNodesBatch _ b => (1 <= List.length b <= batch_size)%nat
  | QCreateRelsBatch _ b => (1 <= List.length b <= batch_size)%nat
  | _ => True
  end.

(** The type a relation is grouped under. *)
Definition raw_rel_type {Props : Type} (r : relation Props) : pystr :=
  match rel_type r with
  | Some t => t
  | None => RELATED_TO
  end.

(** ASCII [str.lower], for concrete runs. *)
Definition ascii_lower (s : pystr) : pystr :=
  map (fun c => if (65 <=? c)%N && (c <=? 90)%N then (c + 32)%N else c) s.

(** * Properties *)

(** ** Identifier sanitizer *)

Example validate_Learning : validate_cypher_identifier (str "Learning") = true.
Proof. reflexivity. Qed.
Example validate_x1 : validate_cypher_identifier (str "_x1") = true.
Proof. reflexivity. Qed.
Example validate_digit : validate_cypher_identifier (str "1abc") = false.
Proof. reflexivity. Qed.
Example validate_space : validate_cypher_identifier (str "a b") = false.
Proof. reflexivity. Qed.
Example sanitize_sample :
  sanitize_cypher_identifier (str "9 lives!") Node_label = str "_9_lives_".
Proof. reflexivity. Qed.

Lemma word_class_sub_char : forall c, word_class (sub_char c) = true.
Proof.
  intro c. unfold sub_char. destruct (word_class c) eqn:E; [exact E | reflexivity].
Qed.

Lemma sub_char_word : forall c, word_class c = true -> sub_char c = c.
Proof. intros c H. unfold sub_char. now rewrite H. Qed.

Lemma re_sub_non_word_fix : forall s,
  forallb word_class s = true -> re_sub_non_word s = s.
Proof.
  induction s as [|c s IH]; simpl; intro H; [reflexivity|].
  apply andb_prop in H as [H1 H2]. rewrite (sub_char_word c H1), (IH H2).
  reflexivity.
Qed.

Lemma forallb_re_sub : forall s, forallb word_class (re_sub_non_word s) = true.
Proof.
  induction s as [|c s IH]; simpl; [reflexivity|].
  now rewrite word_class_sub_char, IH.
Qed.

Lemma star_then_dollar_word : forall s,
  forallb word_class s = true -> star_then_dollar s = true.
Proof.
  induction s as [|c s IH]; simpl; intro H; [reflexivity|].
  apply andb_prop in H as [H1 H2]. rewrite H1, (IH H2).
  apply orb_true_r.
Qed.

(** The regular expression accepts every string of the grammar. *)
Lemma pattern_of_grammar : forall s,
  identifier_grammar s = true -> identifier_pattern_match s = true.
Proof.
  intros [|c s] H; [discriminate|]. simpl in *.
  apply andb_prop in H as [H1 H2]. now rewrite H1, star_then_dollar_word.
Qed.

Lemma validate_of_grammar : forall s,
  identifier_grammar s = true -> validate_cypher_identifier s = true.
Proof.
  intros [|c s] H; [discriminate|]. now apply pattern_of_grammar.
Qed.

(** The digit test and the grammar on a word-class string: a word-class
    character is a head character unless it is a digit. *)
Lemma head_class_word : forall c,
  word_class c = true -> is_ascii_digit c = false -> head_class c = true.
Proof.
  intros c H1 H2. unfold word_class, head_class in *. rewrite H2 in H1.
  rewrite orb_false_r in H1. exact H1.
Qed.

Lemma underscore_word : word_class underscore = true.
Proof. reflexivity. Qed.

Lemma underscore_not_digit : is_ascii_digit underscore = false.
Proof. reflexivity. Qed.

(** The output of the substitution-and-prefix step on a non-empty input
    satisfies the grammar. *)
Lemma substitute_and_prefix_grammar : forall s,
  s <> [] -> identifier_grammar (substitute_and_prefix s) = true.
Proof.
  intros s Hs. unfold substitute_and_prefix.
  pose proof (forallb_re_sub s) as Hw.
  destruct (re_sub_non_word s) as [|c t] eqn:E.
  - destruct s; [congruence | discriminate].
  - simpl in Hw |- *. apply andb_prop in Hw as [Hc Ht].
    destruct (is_ascii_digit c) eqn:D; simpl.
    + rewrite Hc, Ht. reflexivity.
    + rewrite (head_class_word c Hc D). exact Ht.
Qed.

Lemma substitute_and_prefix_nonempty : forall s,
  s <> [] -> substitute_and_prefix s <> [].
Proof.
  intros s Hs E. pose proof (substitute_and_prefix_grammar s Hs) as G.
  rewrite E in G. discriminate.
Qed.

Lemma head_not_digit : forall c,
  head_class c = true -> is_ascii_digit c = false.
Proof.
  intros c H. unfold head_class, is_ascii_letter, is_ascii_digit, underscore in *.
  destruct (48 <=? c)%N eqn:A, (c <=? 57)%N eqn:B; simpl; try reflexivity.
  apply N.leb_le in A, B.
  destruct (65 <=? c)%N eqn:C; [apply N.leb_le in C; lia|].
  destruct (97 <=? c)%N eqn:D; [apply N.leb_le in D; lia|].
  simpl in H. apply N.eqb_eq in H. lia.
Qed.

(** A string of the grammar is left alone by the substitution-and-prefix
    step. *)
Lemma substitute_and_prefix_fix : forall s,
  identifier_grammar s = true -> substitute_and_prefix s = s.
Proof.
  intros [|c s] H; [discriminate|]. simpl in H.
  apply andb_prop in H as [H1 H2].
  assert (Hw : word_class c = true).
  { unfold head_class, word_class in *.
    apply orb_prop in H1 as [H1|H1]; rewrite H1; [reflexivity|].
    apply orb_true_r. }
  unfold substitute_and_prefix. simpl. rewrite (sub_char_word c Hw).
  rewrite (re_sub_non_word_fix s H2). simpl.
  now rewrite (head_not_digit c H1).
Qed.

Lemma sanitize_grammar : forall s f,
  s <> [] -> identifier_grammar (sanitize_cypher_identifier s f) = true.
Proof.
  intros [|c s] f H; [congruence|]. unfold sanitize_cypher_identifier.
  pose proof (substitute_and_prefix_nonempty (c :: s) H) as Hn.
  pose proof (substitute_and_prefix_grammar (c :: s) H) as G.
  destruct (substitute_and_prefix (c :: s)); [congruence|]. exact G.
Qed.

Lemma sanitize_label_grammar : forall s,
  identifier_grammar (sanitize_label s) = true.
Proof.
  intros [|c s].
  - reflexivity.
  - unfold sanitize_label.
    assert (H : c :: s <> []) by discriminate.
    pose proof (substitute_and_prefix_nonempty (c :: s) H) as Hn.
    pose proof (substitute_and_prefix_grammar (c :: s) H) as G.
    destruct (substitute_and_prefix (c :: s)); [congruence|]. exact G.
Qed.

Lemma sanitize_of_grammar : forall s f,
  identifier_grammar s = true -> sanitize_cypher_identifier s f = s.
Proof.
  intros [|c s] f H; [discriminate|]. unfold sanitize_cypher_identifier.
  rewrite (substitute_and_prefix_fix _ H). reflexivity.
Qed.

Lemma sanitize_label_of_grammar : forall s,
  identifier_grammar s = true -> sanitize_label s = s.
Proof.
  intros [|c s] H; [discriminate|]. unfold sanitize_label.
  rewrite (substitute_and_prefix_fix _ H). reflexivity.
Qed.

(** What the regular expression accepts: the strings of the grammar, and
    the strings of the grammar followed by one newline. *)
Lemma star_then_dollar_spec : forall s,
  star_then_dollar s = true <->
  forallb word_class s = true \/
  exists t, s = t ++ [10%N] /\ forallb word_class t = true.
Proof.
  induction s as [|c s IH]; simpl.
  - split; [auto|]. intros _. reflexivity.
  - split.
    + intro H. apply orb_prop in H as [H|H].
      * destruct s as [|d s']; [|discriminate].
        simpl in H. apply N.eqb_eq in H. subst c.
        right. exists []. split; reflexivity.
      * apply andb_prop in H as [Hc Hs]. apply IH in Hs as [Hs|[t [-> Ht]]].
        -- left. now rewrite Hc, Hs.
        -- right. exists (c :: t). simpl. rewrite Hc, Ht. split; reflexivity.
    + intros [H|[t [E Ht]]].
      * apply andb_prop in H as [Hc Hs]. apply orb_true_intro. right.
        rewrite Hc. simpl. apply IH. now left.
      * destruct t as [|d t].
        -- simpl in E. injection E as -> ->. reflexivity.
        -- simpl in E. injection E as -> ->. simpl in Ht.
           apply andb_prop in Ht as [Hd Ht].
           apply orb_true_intro. right. rewrite Hd. simpl. apply IH.
           right. exists t. split; [reflexivity|exact Ht].
Qed.

Lemma validate_spec : forall s,
  validate_cypher_identifier s = true <->
  identifier_grammar s = true \/
  exists t, s = t ++ [10%N] /\ identifier_grammar t = true.
Proof.
  intros [|c s]; simpl.
  - split; [discriminate|]. intros [H|[t [E _]]]; [discriminate|].
    destruct t; discriminate.
  - rewrite andb_true_iff, star_then_dollar_spec. split.
    + intros [Hc [Hs|[t [-> Ht]]]].
      * left. now rewrite Hc, Hs.
      * right. exists (c :: t). simpl. rewrite Hc, Ht. split; reflexivity.
    + intros [H|[t [E Ht]]].
      * apply andb_prop in H as [Hc Hs]. split; [exact Hc|]. now left.
      * destruct t as [|d t]; [discriminate|].
        simpl in E. injection E as -> ->. simpl in Ht.
        apply andb_prop in Ht as [Hc Ht]. split; [exact Hc|].
        right. exists t. split; [reflexivity|exact Ht].
Qed.

(** C2 (code bug).  [validate_cypher_identifier] and [validate_cypher_label]
    use [re.match] with a pattern ending in [$], which also matches before a
    final newline: the string ["Learning\n"], which contains whitespace and
    is outside the identifier grammar, is accepted by both. *)
Theorem validate_accepts_trailing_newline :
  validate_cypher_identifier (str "Learning" ++ [10%N]) = true /\
  validate_cypher_label (str "Learning" ++ [10%N]) = true /\
  identifier_grammar (str "Learning" ++ [10%N]) = false.
Proof. vm_compute. repeat split. Qed.

(** C6 (counterexample).  With the fallback ["1"], which is not itself a
    sanitized identifier, [sanitize("", "1")] is ["1"] but sanitizing that
    again gives ["_1"]. *)
Lemma sanitize_not_idempotent_fallback :
  sanitize_cypher_identifier [] (str "1") = str "1" /\
  sanitize_cypher_identifier (sanitize_cypher_identifier [] (str "1")) (str "1")
    = str "_1".
Proof. split; reflexivity. Qed.

(** C6 (amended).  For every string [s] and every fallback [f] that is
    empty or itself satisfies the identifier grammar (such as the default
    ["Node"]), sanitizing twice equals sanitizing once; [sanitize_label],
    whose fallback is the fixed ["Node"], is idempotent on every string. *)
Theorem sanitize_idempotent : forall s f,
  f = [] \/ identifier_grammar f = true ->
  sanitize_cypher_identifier (sanitize_cypher_identifier s f) f
    = sanitize_cypher_identifier s f /\
  sanitize_label (sanitize_label s) = sanitize_label s.
Proof.
  intros s f Hf. split.
  - destruct s as [|c s].
    + simpl. destruct Hf as [->|Hf]; [reflexivity|].
      now apply sanitize_of_grammar.
    + apply sanitize_of_grammar, sanitize_grammar. discriminate.
  - apply sanitize_label_of_grammar, sanitize_label_grammar.
Qed.

Lemma sanitize_idempotent_witness :
  (Node_label = [] \/ identifier_grammar Node_label = true) /\
  sanitize_cypher_identifier
    (sanitize_cypher_identifier (str "9 lives!") Node_label) Node_label
    = sanitize_cypher_identifier (str "9 lives!") Node_label /\
  sanitize_label (sanitize_label (str "9 lives!")) = sanitize_label (str "9 lives!").
Proof.
  assert (H : Node_label = [] \/ identifier_grammar Node_label = true)
    by (right; reflexivity).
  split; [exact H|]. exact (sanitize_idempotent (str "9 lives!") Node_label H).
Defined.

(** C9.  For every string [s] and every fallback [f] satisfying the
    identifier grammar, the output of [sanitize_cypher_identifier] passes
    [validate_cypher_identifier]; likewise [sanitize_label] output passes
    [validate_cypher_label]. *)
Theorem sanitized_passes_validation : forall s f,
  identifier_grammar f = true ->
  validate_cypher_identifier (sanitize_cypher_identifier s f) = true /\
  validate_cypher_label (sanitize_label s) = true.
Proof.
  intros s f Hf. split.
  - apply validate_of_grammar. destruct s as [|c s]; [exact Hf|].
    apply sanitize_grammar. discriminate.
  - unfold validate_cypher_label. apply pattern_of_grammar, sanitize_label_grammar.
Qed.

Lemma sanitized_passes_validation_witness :
  identifier_grammar Node_label = true /\
  validate_cypher_identifier (sanitize_cypher_identifier (str "a-b") Node_label) = true /\
  validate_cypher_label (sanitize_label (str "a-b")) = true.
Proof.
  assert (H : identifier_grammar Node_label = true) by reflexivity.
  split; [exact H|]. exact (sanitized_passes_validation (str "a-b") Node_label H).
Defined.

(** ** Generic facts on strings, dicts, batches and folds *)

Lemma pystr_eqb_eq : forall a b, pystr_eqb a b = true <-> a = b.
Proof.
  induction a as [|x a IH]; intros [|y b]; simpl; split; intro H;
    try reflexivity; try discriminate.
  - apply andb_prop in H as [H1 H2]. apply N.eqb_eq in H1. apply IH in H2.
    now subst.
  - injection H as -> ->. rewrite N.eqb_refl. simpl. now apply IH.
Qed.

Lemma pystr_eqb_true : forall a b, pystr_eqb a b = true -> a = b.
Proof. intros a b. apply pystr_eqb_eq. Qed.

Lemma fold_left_inv {A B : Type} (f : A -> B -> A) (P : A -> Prop) :
  forall l a, P a -> (forall a b, In b l -> P a -> P (f a b)) -> P (fold_left f l a).
Proof.
  induction l as [|b l IH]; simpl; intros a Ha Hf; [exact Ha|].
  apply IH; [apply Hf; auto|]. intros a' b' Hb. apply Hf. now right.
Qed.

Section DictFacts.
Context {K A : Type} (eqk : K -> K -> bool)
        (HK : forall a b, eqk a b = true -> a = b).

Lemma dict_append_keys : forall k0 (x : A) d k xs,
  In (k, xs) (dict_append eqk k0 x d) -> k = k0 \/ exists ys, In (k, ys) d.
Proof.
  intros k0 x d. induction d as [|[k' ys] d IH]; simpl; intros k xs H.
  - destruct H as [H|[]]. injection H as -> _. now left.
  - destruct (eqk k0 k') eqn:E.
    + destruct H as [H|H].
      * injection H as <- _. right. exists ys. now left.
      * right. exists xs. now right.
    + destruct H as [H|H].
      * injection H as <- <-. right. exists ys. now left.
      * destruct (IH k xs H) as [->|[zs Hz]]; [now left|].
        right. exists zs. now right.
Qed.

Lemma dict_append_items : forall k0 (x : A) d k xs y,
  In (k, xs) (dict_append eqk k0 x d) -> In y xs ->
  y = x \/ exists ys, In (k, ys) d /\ In y ys.
Proof.
  intros k0 x d. induction d as [|[k' ys] d IH]; simpl; intros k xs y H Hy.
  - destruct H as [H|[]]. injection H as -> <-. destruct Hy as [->|[]]. now left.
  - destruct (eqk k0 k') eqn:E.
    + destruct H as [H|H].
      * injection H as <- <-. apply in_app_or in Hy as [Hy|[->|[]]].
        -- right. exists ys. split; [now left|exact Hy].
        -- now left.
      * right. exists xs. split; [now right|exact Hy].
    + destruct H as [H|H].
      * injection H as <- <-. right. exists ys. split; [now left|exact Hy].
      * destruct (IH k xs y H Hy) as [->|[zs [Hz Hy']]]; [now left|].
        right. exists zs. split; [now right|exact Hy'].
Qed.

Lemma dict_append_in : forall k0 (x : A) d,
  exists xs, In (k0, xs) (dict_append eqk k0 x d) /\ In x xs.
Proof.
  intros k0 x d. induction d as [|[k' ys] d IH]; simpl.
  - exists [x]. split; now left.
  - destruct (eqk k0 k') eqn:E.
    + apply HK in E. subst k'. exists (ys ++ [x]). split; [now left|].
      apply in_or_app. right. now left.
    + destruct IH as [xs [H1 H2]]. exists xs. split; [now right|exact H2].
Qed.

Lemma dict_append_keep : forall k0 (x : A) d k ys y,
  In (k, ys) d -> In y ys ->
  exists zs, In (k, zs) (dict_append eqk k0 x d) /\ In y zs.
Proof.
  intros k0 x d. induction d as [|[k' ys'] d IH]; simpl; intros k ys y H Hy;
    [destruct H|].
  destruct (eqk k0 k') eqn:E; destruct H as [H|H].
  - injection H as <- <-. exists (ys' ++ [x]). split; [now left|].
    apply in_or_app. now left.
  - exists ys. split; [now right|exact Hy].
  - injection H as <- <-. exists ys'. split; [now left|exact Hy].
  - destruct (IH k ys y H Hy) as [zs [H1 H2]]. exists zs. split; [now right|exact H2].
Qed.

End DictFacts.

Lemma dict_set_keys {V : Type} : forall k0 (v0 : V) d k v,
  In (k, v) (dict_set Z.eqb k0 v0 d) -> k = k0 \/ exists v', In (k, v') d.
Proof.
  intros k0 v0 d. induction d as [|[k' v'] d IH]; simpl; intros k v H.
  - destruct H as [H|[]]. injection H as -> ->. now left.
  - destruct (Z.eqb k0 k') eqn:E; destruct H as [H|H].
    + injection H as <- <-. right. exists v'. now left.
    + right. exists v. now right.
    + injection H as <- <-. right. exists v'. now left.
    + destruct (IH k v H) as [->|[w Hw]]; [now left|]. right. exists w. now right.
Qed.

Lemma dict_get_in {V : Type} : forall k (d : list (Z * V)) v,
  dict_get Z.eqb k d = Some v -> In (k, v) d.
Proof.
  intros k d. induction d as [|[k' v'] d IH]; simpl; intros v H; [discriminate|].
  destruct (Z.eqb k k') eqn:E.
  - apply Z.eqb_eq in E. subst. injection H as ->. now left.
  - right. now apply IH.
Qed.

Lemma chunks_fuel_cover {A : Type} : forall n fuel (l : list A) x,
  (0 < n)%nat -> (List.length l <= fuel)%nat -> In x l ->
  exists c, In c (chunks_fuel fuel n l) /\ In x c.
Proof.
  intros n fuel. induction fuel as [|fuel IH]; intros l x Hn Hl Hx.
  - destruct l; [destruct Hx|simpl in Hl; lia].
  - destruct l as [|y l']; [destruct Hx|].
    rewrite <- (firstn_skipn n (y :: l')) in Hx.
    apply in_app_or in Hx as [Hx|Hx].
    + exists (firstn n (y :: l')). split; [now left|exact Hx].
    + assert (Hlen : (List.length (skipn n (y :: l')) <= fuel)%nat).
      { rewrite length_skipn. cbn [List.length] in Hl |- *. lia. }
      destruct (IH _ x Hn Hlen Hx) as [c [H1 H2]].
      exists c. split; [now right|exact H2].
Qed.

Lemma chunks_cover {A : Type} : forall n (l : list A) x,
  (0 < n)%nat -> In x l -> exists c, In c (chunks n l) /\ In x c.
Proof. intros n l x Hn Hx. now apply chunks_fuel_cover. Qed.

Lemma chunks_fuel_sub {A : Type} : forall n fuel (l : list A) c x,
  In c (chunks_fuel fuel n l) -> In x c -> In x l.
Proof.
  intros n fuel. induction fuel as [|fuel IH]; intros l c x Hc Hx; [destruct Hc|].
  destruct l as [|y l']; [destruct Hc|].
  rewrite <- (firstn_skipn n (y :: l')).
  destruct Hc as [<-|Hc]; apply in_or_app; [now left|right].
  exact (IH _ c x Hc Hx).
Qed.

Lemma chunks_sub {A : Type} : forall n (l : list A) c x,
  In c (chunks n l) -> In x c -> In x l.
Proof. intros n l. apply chunks_fuel_sub. Qed.

(** ** Graph restorer *)

Section RestoreFacts.

Context {Props DB : Type} (run : DB -> query Props -> DB * option (list Z)).


Lemma create_node_single_trace : forall k st item,
  exists q, tr_of (create_node_single run k st item) = tr_of st ++ [q] /\ labelled k q.
Proof.
  intros k [[db tr] m] item. unfold create_node_single.
  destruct (run db _) as [db' [rows|]]; eexists; split; reflexivity.
Qed.

Lemma fold_single_trace : forall k items st,
  exists extra,
    tr_of (fold_left (create_node_single run k) items st) = tr_of st ++ extra /\
    Forall (labelled k) extra.
Proof.
  intros k items. induction items as [|it items IH]; intro st; simpl.
  - exists []. rewrite app_nil_r. split; [reflexivity|constructor].
  - destruct (create_node_single_trace k st it) as [q [Hq Lq]].
    destruct (IH (create_node_single run k st it)) as [extra [He Le]].
    exists (q :: extra). rewrite He, Hq, <- app_assoc. split; [reflexivity|].
    now constructor.
Qed.

Lemma create_nodes_batch_trace : forall k st batch,
  exists extra,
    tr_of (create_nodes_batch run k st batch)
      = tr_of st ++ QCreateNodesBatch k (map snd batch) :: extra /\
    Forall (labelled k) extra.
Proof.
  intros k [[db tr] m] batch. unfold create_nodes_batch.
  destruct (run db _) as [db' [new_ids|]].
  - exists []. split; [reflexivity|constructor].
  - destruct (fold_single_trace k batch (db', tr ++ [QCreateNodesBatch k (map snd batch)], m))
      as [extra [He Le]].
    exists extra. rewrite He. unfold tr_of. simpl. rewrite <- app_assoc.
    split; [reflexivity|exact Le].
Qed.

Lemma fold_batches_trace : forall k batches st,
  exists extra,
    tr_of (fold_left (create_nodes_batch run k) batches st) = tr_of st ++ extra /\
    Forall (labelled k) extra /\
    (forall b, In b batches -> In (QCreateNodesBatch k (map snd b)) extra).
Proof.
  intros k batches. induction batches as [|b batches IH]; intro st; simpl.
  - exists []. rewrite app_nil_r. split; [reflexivity|]. split; [constructor|].
    intros b [].
  - destruct (create_nodes_batch_trace k st b) as [e1 [H1 L1]].
    destruct (IH (create_nodes_batch run k st b)) as [e2 [H2 [L2 I2]]].
    exists ((QCreateNodesBatch k (map snd b) :: e1) ++ e2).
    rewrite H2, H1, <- app_assoc. split; [reflexivity|]. split.
    + apply Forall_app. split; [|exact L2]. constructor; [reflexivity|exact L1].
    + intros b' [<-|Hb]; apply in_or_app; [left; now left|right; now apply I2].
Qed.


Lemma restore_groups_trace : forall groups st,
  exists extra,
    tr_of (restore_groups run groups st) = tr_of st ++ extra /\
    (forall q, In q extra -> exists g, In g groups /\ labelled (fst g) q) /\
    (forall g b, In g groups -> In b (chunks batch_size (snd g)) ->
       In (QCreateNodesBatch (fst g) (map snd b)) extra).
Proof.
  unfold restore_groups.
  intro groups. induction groups as [|g groups IH]; intro st; simpl.
  - exists []. rewrite app_nil_r. split; [reflexivity|]. split; [intros q []|].
    intros g b [].
  - destruct (fold_batches_trace (fst g) (chunks batch_size (snd g)) st)
      as [e1 [H1 [L1 I1]]].
    destruct (IH (fold_left (create_nodes_batch run (fst g)) (chunks batch_size (snd g)) st))
      as [e2 [H2 [L2 I2]]].
    exists (e1 ++ e2). rewrite H2, H1, <- app_assoc. split; [reflexivity|]. split.
    + intros q Hq. apply in_app_or in Hq as [Hq|Hq].
      * exists g. split; [now left|]. rewrite Forall_forall in L1. now apply L1.
      * destruct (L2 q Hq) as [g' [Hg' Lg']]. exists g'. split; [now right|exact Lg'].
    + intros g' b [<-|Hg] Hb; apply in_or_app; [left; now apply I1|right; now apply I2].
Qed.

Lemma restore_nodes_batch_unfold : forall nodes db tr,
  restore_nodes_batch run nodes db tr = restore_groups run (group_nodes nodes) (db, tr, []).
Proof. reflexivity. Qed.

(** The groups built from the archive: keys are label keys of archive
    nodes, items are the archive nodes' (id, properties). *)
Lemma group_nodes_sound : forall (nodes : list (node Props)) k items,
  In (k, items) (group_nodes nodes) ->
  (exists n, In n nodes /\ k = labels_key (node_labels n)) /\
  (forall it, In it items -> exists n, In n nodes /\ it = (node_id n, node_props n)).
Proof.
  intro nodes. unfold group_nodes.
  apply (fold_left_inv _ (fun acc => forall k items, In (k, items) acc ->
     (exists n, In n nodes /\ k = labels_key (node_labels n)) /\
     (forall it, In it items -> exists n, In n nodes /\ it = (node_id n, node_props n)))).
  - intros k items [].
  - intros acc n Hn Hacc k items Hk. split.
    + destruct (dict_append_keys pystr_eqb _ _ _ _ _ Hk) as [->|[ys Hys]].
      * exists n. split; [exact Hn|reflexivity].
      * exact (proj1 (Hacc k ys Hys)).
    + intros it Hit.
      destruct (dict_append_items pystr_eqb _ _ _ _ _ _ Hk Hit) as [->|[ys [Hys Hy]]].
      * exists n. split; [exact Hn|reflexivity].
      * exact (proj2 (Hacc k ys Hys) it Hy).
Qed.

Lemma group_nodes_complete : forall (nodes : list (node Props)) n,
  In n nodes ->
  exists items, In (labels_key (node_labels n), items) (group_nodes nodes) /\
                In (node_id n, node_props n) items.
Proof.
  intros nodes n Hn. apply in_split in Hn as [l1 [l2 ->]].
  unfold group_nodes. rewrite fold_left_app. simpl.
  apply (fold_left_inv _ (fun acc => exists items,
     In (labels_key (node_labels n), items) acc /\ In (node_id n, node_props n) items)).
  - apply (dict_append_in pystr_eqb pystr_eqb_true).
  - intros acc n' _ [items [H1 H2]].
    exact (dict_append_keep pystr_eqb _ _ _ _ _ _ H1 H2).
Qed.

(** The labels string is never empty. *)
Lemma safe_label_nonempty : forall l, safe_label l <> [].
Proof.
  intros l. unfold safe_label. destruct (validate_cypher_label l) eqn:V.
  - intros ->. discriminate.
  - intro E. pose proof (sanitize_label_grammar l) as G. rewrite E in G. discriminate.
Qed.

Lemma insert_sorted_nonempty : forall x l, insert_sorted x l <> [].
Proof. intros x [|y l]; simpl; [discriminate|]. destruct (pystr_ltb y x); discriminate. Qed.

Lemma insert_sorted_in : forall x l y, In y (insert_sorted x l) -> y = x \/ In y l.
Proof.
  intros x l. induction l as [|z l IH]; simpl; intros y H.
  - destruct H as [->|[]]. now left.
  - destruct (pystr_ltb z x); simpl in H.
    + destruct H as [->|H]; [right; now left|].
      destruct (IH y H) as [->|H']; [now left|right; now right].
    + destruct H as [->|H]; [now left|right; exact H].
Qed.

Lemma py_sorted_in : forall l y, In y (py_sorted l) -> In y l.
Proof.
  induction l as [|x l IH]; simpl; intros y H; [exact H|].
  destruct (insert_sorted_in x _ y H) as [->|H']; [now left|right; now apply IH].
Qed.

Lemma py_join_nonempty : forall sep l,
  (forall x, In x l -> x <> []) -> l <> [] -> py_join sep l <> [].
Proof.
  intros sep [|x [|y l]] H Hl; [congruence| |]; simpl.
  - apply H. now left.
  - intro E. apply app_eq_nil in E as [E _]. exact (H x (or_introl eq_refl) E).
Qed.

Lemma labels_key_nonempty : forall raw, labels_key raw <> [].
Proof.
  intro raw. unfold labels_key.
  destruct (map safe_label raw) as [|x l] eqn:E; [discriminate|].
  apply py_join_nonempty.
  - intros y Hy. apply py_sorted_in in Hy. rewrite <- E in Hy.
    apply in_map_iff in Hy as [z [<- _]]. apply safe_label_nonempty.
  - simpl. apply insert_sorted_nonempty.
Qed.

End RestoreFacts.

Section RestoreKeys.

Context {Props DB : Type} (run : DB -> query Props -> DB * option (list Z)).
Variable nodes : list (node Props).


Lemma keys_from_set : forall m k v,
  keys_from nodes m -> (exists n, In n nodes /\ node_id n = Some k) ->
  keys_from nodes (dict_set Z.eqb k v m).
Proof.
  intros m k v Hm Hk k' v' H. destruct (dict_set_keys _ _ _ _ _ H) as [->|[w Hw]].
  - exact Hk.
  - exact (Hm k' w Hw).
Qed.

Lemma map_ids_keys : forall m olds news,
  keys_from nodes m ->
  (forall o, In (Some o) olds -> exists n, In n nodes /\ node_id n = Some o) ->
  keys_from nodes (map_ids m olds news).
Proof.
  intros m olds news Hm Hold. unfold map_ids.
  apply (fold_left_inv _ (keys_from nodes)); [exact Hm|].
  intros m' [[o|] nw] Hp Hm'; simpl; [|exact Hm'].
  apply keys_from_set; [exact Hm'|]. apply Hold.
  exact (in_combine_l _ _ _ _ Hp).
Qed.

Lemma create_node_single_keys : forall k st item,
  keys_from nodes (map_of st) -> items_ok nodes [item] ->
  keys_from nodes (map_of (create_node_single run k st item)).
Proof.
  intros k [[db tr] m] [o p] Hm Hit. unfold create_node_single. simpl in Hm |- *.
  destruct (run db _) as [db' [rows|]]; simpl; [|exact Hm].
  destruct rows as [|nw rows]; [exact Hm|]. destruct o as [o|]; [|exact Hm].
  apply keys_from_set; [exact Hm|].
  destruct (Hit (Some o, p) (or_introl eq_refl)) as [n [Hn E]].
  injection E as E _. exists n. split; [exact Hn|now rewrite E].
Qed.

Lemma create_nodes_batch_keys : forall k st batch,
  keys_from nodes (map_of st) -> items_ok nodes batch ->
  keys_from nodes (map_of (create_nodes_batch run k st batch)).
Proof.
  intros k [[db tr] m] batch Hm Hb. unfold create_nodes_batch. simpl in Hm.
  destruct (run db _) as [db' [new_ids|]].
  - apply map_ids_keys; [exact Hm|]. intros o Ho.
    apply in_map_iff in Ho as [[o' p] [E Hin]]. simpl in E. subst o'.
    destruct (Hb _ Hin) as [n [Hn E]]. injection E as E _.
    exists n. split; [exact Hn|now rewrite E].
  - apply (fold_left_inv _ (fun st => keys_from nodes (map_of st))); [exact Hm|].
    intros st it Hit Hst. apply create_node_single_keys; [exact Hst|].
    intros it' [<-|[]]. exact (Hb it Hit).
Qed.

Lemma restore_nodes_keys : forall db tr,
  keys_from nodes (map_of (restore_nodes_batch run nodes db tr)).
Proof.
  intros db tr. rewrite restore_nodes_batch_unfold. unfold restore_groups.
  apply (fold_left_inv _ (fun st => keys_from nodes (map_of st))).
  - intros k v [].
  - intros st [k items] Hg Hst. simpl.
    destruct (group_nodes_sound nodes k items Hg) as [_ Hitems].
    apply (fold_left_inv _ (fun st => keys_from nodes (map_of st))); [exact Hst|].
    intros st' b Hb Hst'. apply create_nodes_batch_keys; [exact Hst'|].
    intros it Hit. apply Hitems. exact (chunks_sub _ _ _ _ Hb Hit).
Qed.

Lemma lookup_absent : forall m o,
  keys_from nodes m -> absent_from nodes o = true -> lookup_old m o = None.
Proof.
  intros m [k|] Hm Ha; [|reflexivity]. simpl.
  destruct (dict_get Z.eqb k m) as [v|] eqn:E; [|reflexivity].
  apply dict_get_in in E. destruct (Hm k v E) as [n [Hn Hid]].
  simpl in Ha. rewrite forallb_forall in Ha. specialize (Ha n Hn).
  rewrite Hid in Ha. simpl in Ha. rewrite Z.eqb_refl in Ha. discriminate.
Qed.

(** A relation with an endpoint that no archive node carries leaves the
    grouping accumulator unchanged. *)
Lemma group_rel_dangling : forall m acc (r : relation Props),
  keys_from nodes m ->
  absent_from nodes (rel_source r) || absent_from nodes (rel_target r) = true ->
  group_rel m acc r = acc.
Proof.
  intros m acc r Hm Ha. unfold group_rel.
  apply orb_prop in Ha as [Ha|Ha].
  - now rewrite (lookup_absent m _ Hm Ha).
  - rewrite (lookup_absent m _ Hm Ha). now destruct (lookup_old m (rel_source r)).
Qed.

End RestoreKeys.


Example restore_sample :
  restore_session demo_run
    [sample_node 1 [str "Person"]; sample_node 2 [str "Person"]; sample_node 3 []]
    [sample_rel 1 2; sample_rel 2 3] 100%Z
  = (103%Z,
     [QCreateNodesBatch (str "Person") [tt; tt]; QCreateNodesBatch Node_label [tt];
      QCreateRelsBatch (str "FRIENDS_WITH") [(100, 101, tt); (101, 102, tt)]%Z;
      QVerify], 2%Z, true).
Proof. reflexivity. Qed.

(** C10.  In [_restore_nodes_batch] a node whose label list is empty is put
    in the group of the default label ["Node"]: its properties are submitted
    in a batched [CREATE (n:Node)] statement.  No label sanitises to the
    empty string, and every node-creation statement the restorer issues
    splices a non-empty labels string, so no node is created label-less. *)
Theorem restore_nodes_default_label :
  forall (Props DB : Type) (run : DB -> query Props -> DB * option (list Z))
         (nodes : list (node Props)) (db : DB),
  labels_key [] = Node_label /\
  (forall l, safe_label l <> []) /\
  (forall q, In q (tr_of (restore_nodes_batch run nodes db [])) ->
     exists k, node_query_labels q = Some k /\ k <> []) /\
  (forall n, In n nodes -> node_labels n = [] ->
     exists b, In (QCreateNodesBatch Node_label b)
                  (tr_of (restore_nodes_batch run nodes db [])) /\
               In (node_props n) b).
Proof.
  intros Props DB run nodes db.
  rewrite restore_nodes_batch_unfold.
  destruct (restore_groups_trace run (group_nodes nodes) (db, [], []))
    as [extra [Htr [Hlab Hbatch]]].
  rewrite Htr. simpl.
  split; [reflexivity|]. split; [exact safe_label_nonempty|]. split.
  - intros q Hq. destruct (Hlab q Hq) as [[k items] [Hg Lq]].
    exists k. split; [exact Lq|].
    destruct (group_nodes_sound nodes k items Hg) as [[n [_ ->]] _].
    apply labels_key_nonempty.
  - intros n Hn Hl.
    destruct (group_nodes_complete nodes n Hn) as [items [Hg Hit]].
    rewrite Hl in Hg. change (labels_key []) with Node_label in Hg.
    destruct (chunks_cover batch_size items _ ltac:(unfold batch_size; lia) Hit)
      as [b [Hb Hin]].
    exists (map snd b). split.
    + exact (Hbatch (Node_label, items) b Hg Hb).
    + exact (in_map snd b _ Hin).
Qed.

Lemma restore_nodes_default_label_witness :
  labels_key [] = Node_label /\
  (forall l, safe_label l <> []) /\
  (forall q, In q (tr_of (restore_nodes_batch demo_run
                             [sample_node 1 []; sample_node 2 [str "a b"]] 0%Z [])) ->
     exists k, node_query_labels q = Some k /\ k <> []) /\
  (forall n, In n [sample_node 1 []; sample_node 2 [str "a b"]] -> node_labels n = [] ->
     exists b, In (QCreateNodesBatch Node_label b)
                  (tr_of (restore_nodes_batch demo_run
                            [sample_node 1 []; sample_node 2 [str "a b"]] 0%Z [])) /\
               In (node_props n) b).
Proof.
  exact (restore_nodes_default_label unit Z demo_run
           [sample_node 1 []; sample_node 2 [str "a b"]] 0%Z).
Defined.

(** C3 (amended).  A relation whose source or target id is carried by no
    node of the archive is dropped by [_restore_relations_batch] without any
    effect: restoring the archive with it gives exactly the same final
    database, the same statements, the same [restored_rels] count and the
    same result of [restore_backup] as restoring the archive without it.
    It is not created, does not make the restore fail, and is not counted
    anywhere. *)
Theorem dangling_relation_dropped :
  forall (Props DB : Type) (run : DB -> query Props -> DB * option (list Z))
         (nodes : list (node Props)) (rels1 rels2 : list (relation Props))
         (r : relation Props) (db : DB),
  absent_from nodes (rel_source r) || absent_from nodes (rel_target r) = true ->
  restore_session run nodes (rels1 ++ r :: rels2) db
    = restore_session run nodes (rels1 ++ rels2) db.
Proof.
  intros Props DB run nodes rels1 rels2 r db Ha.
  unfold restore_session.
  pose proof (restore_nodes_keys run nodes db []) as Hk.
  destruct (restore_nodes_batch run nodes db []) as [[db1 tr1] m].
  unfold map_of in Hk. simpl in Hk.
  unfold restore_relations_batch, group_rels.
  rewrite !fold_left_app. simpl.
  rewrite (group_rel_dangling nodes m _ r Hk Ha). reflexivity.
Qed.

Lemma dangling_relation_dropped_witness :
  absent_from [sample_node 1 []; sample_node 2 []] (rel_source (sample_rel 99 2))
    || absent_from [sample_node 1 []; sample_node 2 []] (rel_target (sample_rel 99 2))
    = true /\
  restore_session demo_run [sample_node 1 []; sample_node 2 []]
    ([sample_rel 1 2] ++ sample_rel 99 2 :: []) 0%Z
  = restore_session demo_run [sample_node 1 []; sample_node 2 []]
    ([sample_rel 1 2] ++ []) 0%Z.
Proof.
  assert (H : absent_from [sample_node 1 []; sample_node 2 []] (rel_source (sample_rel 99 2))
    || absent_from [sample_node 1 []; sample_node 2 []] (rel_target (sample_rel 99 2))
    = true) by reflexivity.
  split; [exact H|].
  exact (dangling_relation_dropped unit Z demo_run _ [sample_rel 1 2] [] _ 0%Z H).
Defined.

(** C3 (counterexample).  The claim asks that a dangling relation be
    reported in a [relationshipsSkipped] count.  Restoring the archive
    [{1, 2}] with relations [1 -> 2] and [99 -> 2] (node 99 does not exist)
    yields exactly what restoring it with [1 -> 2] alone yields, so no
    function of the restore's outcome can count the dangling relation as
    one skip in the first case and zero in the second. *)
Lemma dangling_relation_not_counted :
  ~ exists skipped : Z * list (query unit) * Z * bool -> nat,
      skipped (restore_session demo_run [sample_node 1 []; sample_node 2 []]
                 [sample_rel 1 2; sample_rel 99 2] 0%Z) = 1%nat /\
      skipped (restore_session demo_run [sample_node 1 []; sample_node 2 []]
                 [sample_rel 1 2] 0%Z) = 0%nat.
Proof.
  intros [skipped [H1 H2]].
  assert (E : restore_session demo_run [sample_node 1 []; sample_node 2 []]
                [sample_rel 1 2; sample_rel 99 2] 0%Z
            = restore_session demo_run [sample_node 1 []; sample_node 2 []]
                [sample_rel 1 2] 0%Z) by (vm_compute; reflexivity).
  rewrite E, H2 in H1. discriminate.
Qed.

(** ** Clearing the target *)


Lemma exec_delete_nodes : forall ok g g',
  exec ok SDeleteNodes g = Some g' -> g' = cleared.
Proof.
  intros ok g g' H. unfold exec in H. destruct (ok SDeleteNodes g); [|discriminate].
  destruct (Nat.eqb (g_rels g) 0); [|discriminate]. now injection H as <-.
Qed.

Lemma exec_commit : forall ok g g', exec ok SCommit g = Some g' -> g' = g.
Proof.
  intros ok g g' H. unfold exec in H. destruct (ok SCommit g); [|discriminate].
  now injection H as <-.
Qed.

(** The v3.1 clearing step is atomic and ordered: the graph ends either
    untouched or fully cleared, and relationship deletion is issued before
    node deletion. *)
Lemma prepare_database_atomic : forall ok confirmed g,
  (fst (fst (prepare_database_for_restore ok confirmed g)) = g \/
   fst (fst (prepare_database_for_restore ok confirmed g)) = cleared) /\
  rels_before_nodes false (snd (fst (prepare_database_for_restore ok confirmed g))) = true.
Proof.
  intros ok confirmed g. unfold prepare_database_for_restore.
  destruct (exec ok SCountNodes g); [|simpl; auto].
  destruct (exec ok SCountRels g); [|simpl; auto].
  destruct ((0 <? g_nodes g) || (0 <? g_rels g)); [|simpl; auto].
  destruct confirmed; [|simpl; auto].
  destruct (exec ok SDeleteRels g) as [t1|]; [|simpl; auto].
  destruct (exec ok SDeleteNodes t1) as [t2|] eqn:E2; [|simpl; auto].
  destruct (exec ok SCommit t2) as [t3|] eqn:E3; [|simpl; auto].
  apply exec_commit in E3. apply exec_delete_nodes in E2. subst. simpl. auto.
Qed.


(** C4 (code bug).  The clearing step of the older [restore_backup]
    (src/neo4j_backup_restore.py) runs the two deletions as separate
    auto-commit statements: when the node deletion fails after the
    relationship deletion committed, the target is left with its 3 nodes
    and none of its 2 relationships, neither rolled back nor cleared; the
    v3.1 engine, on the same input, rolls back to the untouched graph. *)
Theorem root_clear_not_atomic :
  restore_clear_root fail_on_delete_nodes true (mk_graph 3 2)
    = (mk_graph 3 0, [SCountNodes; SCountRels; SDeleteRels; SDeleteNodes], false) /\
  mk_graph 3 0 <> mk_graph 3 2 /\ mk_graph 3 0 <> cleared /\
  fst (fst (prepare_database_for_restore fail_on_delete_nodes true (mk_graph 3 2)))
    = mk_graph 3 2.
Proof.
  split; [reflexivity|]. split; [discriminate|]. split; [discriminate|].
  reflexivity.
Qed.

(** ** Safe extraction *)

Lemma path_eqb_refl : forall p, path_eqb p p = true.
Proof.
  induction p as [|a p IH]; simpl; [reflexivity|].
  rewrite IH, andb_true_r. now apply pystr_eqb_eq.
Qed.

(** What [ZipFile.extract] writes stays below the extraction directory, and
    absolute names are rejected. *)
Lemma extract_member_within : forall temp_dir member p,
  extract_member temp_dir member = Extracted p -> within temp_dir p = true.
Proof.
  intros temp_dir member p H. unfold extract_member in H.
  destruct (is_absolute member); [discriminate|].
  destruct (negb _); [discriminate|].
  destruct (py_endswith member (str ".json")); [|discriminate].
  injection H as <-. unfold within, zip_extract_target.
  rewrite firstn_app, Nat.sub_diag, firstn_O, app_nil_r, firstn_all.
  apply path_eqb_refl.
Qed.

Lemma extract_member_absolute : forall temp_dir member,
  is_absolute member = true -> extract_member temp_dir member = RejectedAbsolute.
Proof. intros temp_dir member H. unfold extract_member. now rewrite H. Qed.


(** C1 (code bug).  The containment test of [_extract_backup_safe] is a
    string-prefix test, [str(target_path).startswith(str(temp_dir))], with
    no separator.  For the fresh directory [/tmp/neo4j_restore_abc12345],
    the member [../neo4j_restore_abc12345x.json] resolves to
    [/tmp/neo4j_restore_abc12345x.json], outside the directory, yet it is
    not skipped: it is handed to [ZipFile.extract], which itself drops the
    [..] and writes it as [neo4j_restore_abc12345x.json] inside the
    directory, where the later [glob("*.json")] can pick it up. *)
Theorem extract_sibling_prefix_accepted :
  is_absolute (str "../neo4j_restore_abc12345x.json") = false /\
  resolve_under sample_temp_dir (str "../neo4j_restore_abc12345x.json")
    = [str "tmp"; str "neo4j_restore_abc12345x.json"] /\
  within sample_temp_dir
    (resolve_under sample_temp_dir (str "../neo4j_restore_abc12345x.json")) = false /\
  extract_member sample_temp_dir (str "../neo4j_restore_abc12345x.json")
    = Extracted (sample_temp_dir ++ [str "neo4j_restore_abc12345x.json"]).
Proof. vm_compute. repeat split. Qed.

Example extract_traversal_rejected :
  extract_member sample_temp_dir (str "../../etc/evil.json") = RejectedTraversal.
Proof. reflexivity. Qed.

Example extract_absolute_rejected :
  extract_member sample_temp_dir (str "/etc/evil.json") = RejectedAbsolute.
Proof. reflexivity. Qed.

(** ** Backup ledger *)


(** C7 (counterexample).  A ledger file holding the earlier entry [a]
    followed by extra data ([[a][]], which [json.load] refuses) is replaced
    by a ledger holding only the new entry [b]: [a] is lost. *)
Lemma ledger_prior_entry_lost :
  update_log entry_b (LedgerText [JList [entry_a]; JList []])
    = Some (LedgerText [JList [entry_b]]) /\
  In entry_a (ledger_entries (LedgerText [JList [entry_a]; JList []])) /\
  ~ In entry_a (ledger_entries (LedgerText [JList [entry_b]])).
Proof.
  split; [reflexivity|]. split; [simpl; auto|].
  simpl. intros [H|[]]. vm_compute in H. discriminate.
Qed.

(** C7 (amended).  When [_update_log] succeeds, the new ledger holds the
    entries of the old one followed by exactly one new entry if the old file
    was missing or parsed as JSON; if it did not parse, the new ledger holds
    only the new entry. *)
Theorem update_log_appends : forall entry f f',
  update_log entry f = Some f' ->
  ledger_entries f' = (if ledger_parses f then ledger_entries f else []) ++ [entry].
Proof.
  intros entry [|docs] f' H; simpl in H |- *.
  - injection H as <-. reflexivity.
  - destruct docs as [|d [|d' docs]]; simpl in H |- *.
    + injection H as <-. reflexivity.
    + destruct d; try discriminate. injection H as <-. simpl.
      rewrite !app_nil_r. reflexivity.
    + injection H as <-. reflexivity.
Qed.

Lemma update_log_appends_witness :
  update_log entry_b (LedgerText [JList [entry_a]])
    = Some (LedgerText [JList [entry_a; entry_b]]) /\
  ledger_entries (LedgerText [JList [entry_a; entry_b]])
    = (if ledger_parses (LedgerText [JList [entry_a]])
       then ledger_entries (LedgerText [JList [entry_a]]) else []) ++ [entry_b].
Proof.
  assert (H : update_log entry_b (LedgerText [JList [entry_a]])
              = Some (LedgerText [JList [entry_a; entry_b]])) by reflexivity.
  split; [exact H|]. exact (update_log_appends _ _ _ H).
Defined.

(** ** Arithmetic of the archive writer *)

Lemma utf8_len_pos : forall c, (1 <= utf8_len c)%Z.
Proof.
  intro c. unfold utf8_len.
  destruct (c <? 128)%N; [lia|]. destruct (c <? 2048)%N; [lia|].
  destruct (c <? 65536)%N; lia.
Qed.

Lemma utf8_size_nonneg : forall t, (0 <= utf8_size t)%Z.
Proof.
  induction t as [|c t IH]; simpl; [lia|]. pose proof (utf8_len_pos c). lia.
Qed.

Lemma utf8_size_cons : forall c t, (0 < utf8_size (c :: t))%Z.
Proof.
  intros c t. simpl. pose proof (utf8_len_pos c). pose proof (utf8_size_nonneg t). lia.
Qed.

(** The data file of a backup is a JSON object, whose text starts with a
    brace whatever the nodes. *)
Lemma dumps_backup_data : forall lvl metadata nodes relations,
  exists t, dumps lvl (backup_data metadata nodes relations) = 123%N :: t.
Proof. intros. simpl. eexists. reflexivity. Qed.

Lemma qeq_bool_pos : forall n, (0 < n)%Z -> Qeq_bool (inject_Z n) 0 = false.
Proof.
  intros n Hn. unfold Qeq_bool, inject_Z. simpl.
  destruct (Z.eqb (n * 1) 0) eqn:E; [|reflexivity].
  apply Z.eqb_eq in E. lia.
Qed.

Lemma py_truediv_nz : forall a b, Qeq_bool b 0 = false -> py_truediv a b = Some (a / b)%Q.
Proof. intros a b H. unfold py_truediv. now rewrite H. Qed.

(** C8.  For an export with no nodes (any metadata, any relations, any
    bundle size), the data file [json.dump] writes has a positive size, and
    none of the divisions of [_save_backup_files] (nor those of the older
    [create_backup], which has no guard) raises [ZeroDivisionError]. *)
Theorem empty_export_no_division_fault : forall metadata relations zip_size,
  (0 < utf8_size (dumps 0 (backup_data metadata [] relations)))%Z /\
  (exists r, save_backup_files_arith
               (utf8_size (dumps 0 (backup_data metadata [] relations))) zip_size
             = Some r) /\
  (exists r, create_backup_arith_root
               (utf8_size (dumps 0 (backup_data metadata [] relations))) zip_size
             = Some r).
Proof.
  intros metadata relations zip_size.
  destruct (dumps_backup_data 0 metadata [] relations) as [t Ht]. rewrite Ht.
  pose proof (utf8_size_cons 123%N t) as Hpos.
  set (file_size := utf8_size (123%N :: t)) in *.
  assert (H1024 : Qeq_bool 1024 0 = false) by reflexivity.
  pose proof (qeq_bool_pos file_size Hpos) as Hfs.
  split; [exact Hpos|]. split.
  - unfold save_backup_files_arith, bind_opt.
    rewrite !py_truediv_nz by assumption.
    replace (file_size >? 0)%Z with true by (symmetry; apply Z.gtb_lt; lia).
    eexists. reflexivity.
  - unfold create_backup_arith_root, bind_opt.
    rewrite !py_truediv_nz by assumption. eexists. reflexivity.
Qed.

(** * Further properties of the code *)

(** ** Cypher string literals *)

Lemma py_replace_char_app : forall o n a b,
  py_replace_char o n (a ++ b) = py_replace_char o n a ++ py_replace_char o n b.
Proof. intros. unfold py_replace_char. apply flat_map_app. Qed.

Lemma sanitize_cypher_string_app : forall a b,
  sanitize_cypher_string (a ++ b) = sanitize_cypher_string a ++ sanitize_cypher_string b.
Proof. intros. unfold sanitize_cypher_string. now rewrite !py_replace_char_app. Qed.

Lemma sanitize_cypher_string_one : forall c,
  sanitize_cypher_string [c] =
  if (c =? backslash)%N then [backslash; backslash]
  else if (c =? squote)%N then [backslash; squote]
  else if (c =? dquote)%N then [backslash; dquote]
  else [c].
Proof.
  intro c. unfold sanitize_cypher_string, py_replace_char. cbn [flat_map].
  destruct (N.eqb_spec c backslash) as [->|H1]; [reflexivity|].
  cbn [flat_map app].
  destruct (N.eqb_spec c squote) as [->|H2]; [reflexivity|].
  cbn [flat_map app].
  destruct (N.eqb_spec c dquote) as [->|H3]; [reflexivity|].
  cbn [flat_map app]. reflexivity.
Qed.

(** The escaped text followed by a single quote reads back as the value,
    and the literal ends exactly at that quote. *)
Lemma sanitize_cypher_string_body : forall v rest,
  cypher_sq_body (sanitize_cypher_string v ++ squote :: rest) = Some (v, rest).
Proof.
  induction v as [|c v IH]; intro rest; [reflexivity|].
  change (c :: v) with ([c] ++ v).
  rewrite sanitize_cypher_string_app, sanitize_cypher_string_one, <- app_assoc.
  destruct (N.eqb_spec c backslash) as [->|H1].
  { simpl. now rewrite IH. }
  destruct (N.eqb_spec c squote) as [->|H2].
  { simpl. now rewrite IH. }
  destruct (N.eqb_spec c dquote) as [->|H3].
  { simpl. now rewrite IH. }
  simpl. apply N.eqb_neq in H1, H2. fold squote backslash.
  rewrite H2, H1, IH. reflexivity.
Qed.

Lemma single_quoted_sanitize_literal : forall v rest,
  cypher_sq_literal (single_quoted (sanitize_cypher_string v) ++ rest) = Some (v, rest).
Proof.
  intros v rest. unfold single_quoted. rewrite <- !app_assoc. simpl.
  apply sanitize_cypher_string_body.
Qed.

Lemma cons_value_some : forall c r d rest,
  cons_value c r = Some (d, rest) -> exists d', r = Some (d', rest) /\ d = c :: d'.
Proof.
  intros c [[d' rest']|] d rest H; simpl in H; [|discriminate].
  injection H as <- <-. now exists d'.
Qed.

(** The count of backslashes and single quotes of a string. *)
Lemma special_count_cons : forall c d,
  (List.length (filter (fun x => (x =? backslash)%N || (x =? squote)%N) (c :: d)) <=
   S (List.length (filter (fun x => (x =? backslash)%N || (x =? squote)%N) d)))%nat.
Proof. intros c d. simpl. destruct (_ || _); simpl; lia. Qed.

(** What a literal body consumes: a prefix [p] before the closing quote.
    Every character of the value takes at least one character of [p], and
    every backslash or single quote of the value takes an escape of at least
    two. *)
Lemma cypher_sq_body_consumed_le : forall n s d r,
  (List.length s <= n)%nat ->
  cypher_sq_body s = Some (d, r) ->
  exists p, s = p ++ squote :: r /\
    (List.length d + List.length (filter (fun x => (x =? backslash)%N || (x =? squote)%N) d)
      <= List.length p)%nat.
Proof.
  induction n as [|n IH]; intros s d r Hn H;
    (destruct s as [|c s1]; [discriminate|]); [simpl in Hn; lia|].
  cbn [cypher_sq_body] in H. simpl in Hn.
  destruct (N.eqb_spec c squote) as [->|Hq].
  { injection H as <- <-. exists []. split; [reflexivity|]. simpl. lia. }
  destruct (N.eqb_spec c backslash) as [->|Hb].
  - destruct s1 as [|e s2]; [discriminate|].
    destruct (cypher_simple_escape e) as [x|].
    + cbn beta iota in H; apply cons_value_some in H as [d' [H ->]].
      destruct (IH s2 d' r ltac:(simpl in Hn; lia) H) as [p [-> Hp]].
      exists (backslash :: e :: p). split; [reflexivity|].
      pose proof (special_count_cons x d'). simpl List.length at 1 3. lia.
    + destruct (e =? 117)%N.
      * destruct s2 as [|h1 [|h2 [|h3 [|h4 s3]]]]; try discriminate.
        destruct (hex_number 0 _) as [x|]; [|discriminate].
        cbn beta iota in H; apply cons_value_some in H as [d' [H ->]].
        destruct (IH s3 d' r ltac:(simpl in Hn; lia) H) as [p [-> Hp]].
        exists (backslash :: e :: h1 :: h2 :: h3 :: h4 :: p). split; [reflexivity|].
        pose proof (special_count_cons x d'). simpl List.length at 1 3. lia.
      * destruct (e =? 85)%N; [|discriminate].
        destruct s2 as [|h1 [|h2 [|h3 [|h4 [|h5 [|h6 [|h7 [|h8 s3]]]]]]]]; try discriminate.
        destruct (hex_number 0 _) as [x|]; [|discriminate].
        cbn beta iota in H; apply cons_value_some in H as [d' [H ->]].
        destruct (IH s3 d' r ltac:(simpl in Hn; lia) H) as [p [-> Hp]].
        exists (backslash :: e :: h1 :: h2 :: h3 :: h4 :: h5 :: h6 :: h7 :: h8 :: p).
        split; [reflexivity|].
        pose proof (special_count_cons x d'). simpl List.length at 1 3. lia.
  - cbn beta iota in H; apply cons_value_some in H as [d' [H ->]].
    destruct (IH s1 d' r ltac:(lia) H) as [p [-> Hp]].
    exists (c :: p). split; [reflexivity|]. simpl.
    apply N.eqb_neq in Hq, Hb. rewrite Hq, Hb. simpl. lia.
Qed.

Lemma cypher_sq_body_consumed : forall s d r,
  cypher_sq_body s = Some (d, r) ->
  exists p, s = p ++ squote :: r /\
    (List.length d + List.length (filter (fun x => (x =? backslash)%N || (x =? squote)%N) d)
      <= List.length p)%nat.
Proof. intros s d r. exact (cypher_sq_body_consumed_le (List.length s) s d r (le_n _)). Qed.

(** The older escaping adds one character per single quote only. *)
Lemma root_escape_value_length : forall v,
  (List.length (root_escape_value v) + List.length (filter (fun x => (x =? backslash)%N) v) =
   List.length v + List.length (filter (fun x => (x =? backslash)%N || (x =? squote)%N) v))%nat.
Proof.
  induction v as [|c v IH]; [reflexivity|].
  unfold root_escape_value, py_replace_char in *. simpl.
  rewrite length_app.
  destruct (N.eqb_spec c squote) as [->|Hq]; [simpl; lia|].
  simpl. destruct (N.eqb_spec c backslash) as [->|Hb]; simpl; lia.
Qed.

(** X1.  [sanitize_cypher_string] makes every string safe to splice
    between single quotes: for all strings [v], Cypher reads the text
    ['{sanitize_cypher_string(v)}'] back as exactly the literal [v], and
    whatever follows the closing quote is left unread.  Nothing of [v] can
    end the literal early. *)
Theorem sanitize_cypher_string_literal : forall v rest,
  cypher_sq_literal (single_quoted (sanitize_cypher_string v) ++ rest) = Some (v, rest).
Proof. exact single_quoted_sanitize_literal. Qed.

(** X2.  The older restore escapes only the single quote
    ([value.replace("'", "\\'")]).  Every value containing a backslash is
    misread: the literal spliced from it does not read back as the value
    followed by the rest of the statement. *)
Theorem root_escape_backslash_misread : forall v rest,
  In backslash v ->
  cypher_sq_literal (single_quoted (root_escape_value v) ++ rest) <> Some (v, rest).
Proof.
  intros v rest Hin H.
  assert (E : single_quoted (root_escape_value v) ++ rest
              = squote :: (root_escape_value v ++ squote :: rest)).
  { unfold single_quoted. simpl. now rewrite <- app_assoc. }
  rewrite E in H. unfold cypher_sq_literal in H. rewrite N.eqb_refl in H.
  apply cypher_sq_body_consumed in H as [p [Hp Hlen]].
  apply app_inv_tail in Hp. subst p.
  pose proof (root_escape_value_length v) as L.
  assert (Hc : (1 <= List.length (filter (fun x => (x =? backslash)%N) v))%nat).
  { destruct (filter (fun x => (x =? backslash)%N) v) as [|y l] eqn:F; [|simpl; lia].
    exfalso. assert (Hf : In backslash (filter (fun x => (x =? backslash)%N) v)).
    { apply filter_In. split; [exact Hin|apply N.eqb_refl]. }
    rewrite F in Hf. destruct Hf. }
  lia.
Qed.

Lemma root_escape_backslash_misread_witness :
  In backslash (str "a\") /\
  cypher_sq_literal (single_quoted (root_escape_value (str "a\")) ++ []) <> Some (str "a\", []).
Proof.
  split; [simpl; auto 20 |].
  apply (root_escape_backslash_misread (str "a\") []). simpl; auto 20.
Defined.

(** ** Property maps ([format_properties_for_cypher]) *)





(** X4.  Every string property [k: s] is written under its checked key
    with a value text that Cypher reads back as the literal [s]. *)
Theorem format_entries_strings : forall ps jd props es k s,
  format_entries ps jd props = Some es -> In (k, PStr s) props ->
  exists t, In (prop_key k, t) es /\
    forall rest, cypher_sq_literal (t ++ rest) = Some (s, rest).
Proof.
  intros ps jd props. induction props as [|[k' v] props IH]; intros es k s H Hin;
    [destruct Hin|].
  cbn [format_entries] in H.
  destruct (render_value ps jd v) as [r|] eqn:Er; [|discriminate].
  destruct (format_entries ps jd props) as [es'|]; [|discriminate].
  injection H as <-.
  destruct Hin as [Heq|Hin].
  - injection Heq as -> ->. simpl in Er. injection Er as <-.
    exists (single_quoted (sanitize_cypher_string s)). split; [now left|].
    apply single_quoted_sanitize_literal.
  - destruct (IH es' k s eq_refl Hin) as [t [Ht Hl]]. exists t. split; [|exact Hl].
    destruct r; [now right|exact Ht].
Qed.

Lemma format_entries_strings_witness :
  exists t, In (prop_key (str "name"), t)
    [(str "name", single_quoted (sanitize_cypher_string (str "O'Brien\")))] /\
    forall rest, cypher_sq_literal (t ++ rest) = Some (str "O'Brien\", rest).
Proof.
  apply (format_entries_strings (fun _ => []) (fun _ => None)
           [(str "name", PStr (str "O'Brien\")); (str "age", PNone)]
           [(str "name", single_quoted (sanitize_cypher_string (str "O'Brien\")))]
           (str "name") (str "O'Brien\")).
  - vm_compute. reflexivity.
  - now left.
Defined.

(** ** [safe_get_line] *)









Lemma lstrip_ws_spaces : forall a x, forallb py_isspace a = true ->
  lstrip_ws (a ++ x) = lstrip_ws x.
Proof.
  induction a as [|c a IH]; simpl; intros x H; [reflexivity|].
  apply andb_prop in H as [H1 H2]. rewrite H1. now apply IH.
Qed.

Lemma lstrip_ws_app_nonempty : forall t b c u,
  lstrip_ws t = c :: u -> lstrip_ws (t ++ b) = c :: u ++ b.
Proof.
  induction t as [|d t IH]; simpl; intros b c u H; [discriminate|].
  destruct (py_isspace d); [now apply IH|injection H as -> ->; reflexivity].
Qed.

Lemma lstrip_ws_app_empty : forall t b, lstrip_ws t = [] -> lstrip_ws (t ++ b) = lstrip_ws b.
Proof.
  induction t as [|d t IH]; simpl; intros b H; [reflexivity|].
  destruct (py_isspace d); [now apply IH|discriminate].
Qed.

Lemma forallb_rev {A : Type} (f : A -> bool) : forall l, forallb f (rev l) = forallb f l.
Proof.
  induction l as [|x l IH]; simpl; [reflexivity|].
  rewrite forallb_app, IH. simpl. rewrite andb_true_r. apply andb_comm.
Qed.

Lemma lstrip_ws_all_space : forall b, forallb py_isspace b = true -> lstrip_ws b = [].
Proof.
  intros b H. rewrite <- (app_nil_r b), lstrip_ws_spaces by exact H. reflexivity.
Qed.

Lemma py_strip_pad : forall a t b,
  forallb py_isspace a = true -> forallb py_isspace b = true ->
  py_strip (a ++ t ++ b) = py_strip t.
Proof.
  intros a t b Ha Hb. unfold py_strip. rewrite lstrip_ws_spaces by exact Ha.
  destruct (lstrip_ws t) as [|c u] eqn:E.
  - rewrite (lstrip_ws_app_empty t b E), (lstrip_ws_all_space b Hb). reflexivity.
  - rewrite (lstrip_ws_app_nonempty t b c u E).
    change (c :: u ++ b) with ((c :: u) ++ b).
    rewrite rev_app_distr, lstrip_ws_spaces; [reflexivity|].
    rewrite forallb_rev. exact Hb.
Qed.

(** X6.  Whitespace before and after the text does not change what
    [safe_get_line] returns, since the text is stripped before it is split. *)
Theorem safe_get_line_padding : forall a t b index default,
  forallb py_isspace a = true -> forallb py_isspace b = true ->
  safe_get_line (Some (a ++ t ++ b)) index default = safe_get_line (Some t) index default.
Proof. intros a t b index default Ha Hb. unfold safe_get_line. now rewrite py_strip_pad. Qed.

Lemma safe_get_line_padding_witness :
  forallb py_isspace [32%N; 9%N] = true /\ forallb py_isspace [10%N; 10%N] = true /\
  safe_get_line (Some ([32%N; 9%N] ++ (str "count" ++ [10%N] ++ str " 42 ") ++ [10%N; 10%N])) 1 []
  = safe_get_line (Some (str "count" ++ [10%N] ++ str " 42 ")) 1 [].
Proof.
  split; [reflexivity|]. split; [reflexivity|].
  apply safe_get_line_padding; reflexivity.
Defined.

(** ** [_validate_backup_schema] *)

(** X7.  When [_validate_backup_schema] returns [True], the data is an
    object whose [metadata] is an object and whose [nodes] and [relations]
    are lists. *)
Theorem validate_backup_schema_shape : forall d,
  validate_backup_schema d = Some true ->
  exists kvs meta nodes relations,
    d = JObject kvs /\
    dict_get pystr_eqb (str "metadata") kvs = Some (JObject meta) /\
    dict_get pystr_eqb (str "nodes") kvs = Some (JList nodes) /\
    dict_get pystr_eqb (str "relations") kvs = Some (JList relations).
Proof.
  intros d H. unfold validate_backup_schema in H.
  destruct (check_required d required_keys) as [[|]|]; try discriminate.
  destruct d as [| | | | | |kvs]; cbn [py_getitem] in H; try discriminate.
  destruct (dict_get pystr_eqb (str "metadata") kvs) as [[| | | | | |meta]|] eqn:Em;
    try discriminate.
  destruct (dict_get pystr_eqb (str "nodes") kvs) as [[| | | | |nodes|]|] eqn:En;
    try discriminate.
  destruct (dict_get pystr_eqb (str "relations") kvs) as [[| | | | |rels|]|] eqn:Er;
    try discriminate.
  now exists kvs, meta, nodes, rels.
Qed.

Lemma validate_backup_schema_shape_witness :
  exists kvs meta nodes relations,
    backup_data (JObject []) [JObject [(str "labels", JList [])]] [] = JObject kvs /\
    dict_get pystr_eqb (str "metadata") kvs = Some (JObject meta) /\
    dict_get pystr_eqb (str "nodes") kvs = Some (JList nodes) /\
    dict_get pystr_eqb (str "relations") kvs = Some (JList relations).
Proof. apply validate_backup_schema_shape. vm_compute. reflexivity. Defined.

(** X8.  Only the first node is inspected.  The verdict on a backup with
    a non-empty node list does not depend on the other nodes, nor on the
    elements of the relation list. *)
Theorem validate_backup_schema_first_node : forall meta n0 ns ns' rs rs',
  validate_backup_schema (backup_data meta (n0 :: ns) rs) =
  validate_backup_schema (backup_data meta (n0 :: ns') rs').
Proof. intros. reflexivity. Qed.


(** X10.  When the loaded JSON is a string that contains the three key names
    as substrings, the [in] tests pass, and the subscript
    [backup_data["metadata"]] raises instead of returning [False]. *)
Theorem validate_backup_schema_text_raises : forall s,
  forallb (fun k => py_substr_in k s) required_keys = true ->
  validate_backup_schema (JStr s) = None.
Proof.
  intros s H. unfold validate_backup_schema, required_keys in *. cbn [forallb] in H.
  rewrite andb_true_r in H. apply andb_prop in H as [H1 H]. apply andb_prop in H as [H2 H3].
  cbn [check_required py_in]. rewrite H1, H2, H3. reflexivity.
Qed.

Lemma validate_backup_schema_text_raises_witness :
  forallb (fun k => py_substr_in k (str "metadata nodes relations")) required_keys = true /\
  validate_backup_schema (JStr (str "metadata nodes relations")) = None.
Proof.
  assert (H : forallb (fun k => py_substr_in k (str "metadata nodes relations"))
                required_keys = true) by (vm_compute; reflexivity).
  split; [exact H|]. exact (validate_backup_schema_text_raises _ H).
Defined.

(** ** The confirmation prompt and the older ledger *)

(** X11.  If nobody answers the confirmation prompt (no terminal, a
    timeout or end of input), the answer defaults to [no].  Then
    [_prepare_database_for_restore] issues no deletion and leaves the graph
    as it is.  It returns [True] whenever both counting statements
    succeed. *)
Theorem unattended_prompt_keeps_graph : forall ok lower isatty ev g,
  lower (str "no") = str "no" ->
  (isatty = false \/ ev = TimedOut \/ ev = EndOfInput) ->
  let '(g', tr, b) := prepare_database_for_restore ok (confirm_clear lower isatty ev) g in
  g' = g /\ ~ In SDeleteRels tr /\ ~ In SDeleteNodes tr /\
  (ok SCountNodes g && ok SCountRels g = true -> b = true).
Proof.
  intros ok lower isatty ev g Hl Hev.
  assert (Hc : confirm_clear lower isatty ev = false).
  { unfold confirm_clear.
    assert (E : input_with_timeout isatty ev (str "no") = str "no").
    { destruct isatty; [|reflexivity].
      destruct Hev as [Hf|[-> | ->]]; [discriminate|reflexivity|reflexivity]. }
    rewrite E, Hl. reflexivity. }
  rewrite Hc. unfold prepare_database_for_restore, exec.
  destruct (ok SCountNodes g); simpl.
  - destruct (ok SCountRels g); simpl.
    + destruct (_ || _); simpl; repeat split; intuition discriminate.
    + repeat split; intuition discriminate.
  - repeat split; intuition discriminate.
Qed.

Lemma unattended_prompt_keeps_graph_witness :
  ascii_lower (str "no") = str "no" /\
  (false = false \/ TimedOut = TimedOut \/ TimedOut = EndOfInput) /\
  let '(g', tr, b) := prepare_database_for_restore (fun _ _ => true)
                        (confirm_clear ascii_lower false TimedOut) (mk_graph 3 2) in
  g' = mk_graph 3 2 /\ ~ In SDeleteRels tr /\ ~ In SDeleteNodes tr /\
  (true && true = true -> b = true).
Proof.
  split; [reflexivity|]. split; [now left|].
  exact (unattended_prompt_keeps_graph (fun _ _ => true) ascii_lower false TimedOut
           (mk_graph 3 2) eq_refl (or_introl eq_refl)).
Defined.


(** ** Extraction of benign members *)

Lemma resolve_from_no_dotdot : forall comps acc,
  forallb (fun c => negb (is_dotdot c)) comps = true ->
  resolve_from acc comps
  = rev acc ++ filter (fun c => negb (is_empty c || is_dot c || is_dotdot c)) comps.
Proof.
  induction comps as [|c cs IH]; intros acc H; simpl in *.
  - now rewrite app_nil_r.
  - apply andb_prop in H as [H1 H2]. apply negb_true_iff in H1. rewrite H1, orb_false_r.
    destruct (is_empty c || is_dot c); simpl.
    + now apply IH.
    + rewrite IH by exact H2. simpl. rewrite <- app_assoc. reflexivity.
Qed.

Lemma py_join_app : forall sep a b, a <> [] -> b <> [] ->
  py_join sep (a ++ b) = py_join sep a ++ sep ++ py_join sep b.
Proof.
  intros sep a b Ha Hb. induction a as [|x a IH]; [congruence|].
  destruct a as [|y a].
  - simpl. destruct b; [congruence|reflexivity].
  - change ((x :: y :: a) ++ b) with (x :: ((y :: a) ++ b)).
    change (py_join sep (x :: (y :: a) ++ b)) with (x ++ sep ++ py_join sep ((y :: a) ++ b)).
    rewrite IH by discriminate.
    change (py_join sep (x :: y :: a)) with (x ++ sep ++ py_join sep (y :: a)).
    rewrite !app_assoc. reflexivity.
Qed.

Lemma path_str_prefix : forall t x, exists suf, path_str (t ++ x) = path_str t ++ suf.
Proof.
  intros t x. destruct t as [|a t'].
  - exists (py_join [slash] x). reflexivity.
  - destruct x as [|b x'].
    + exists []. now rewrite !app_nil_r.
    + exists ([slash] ++ py_join [slash] (b :: x')). unfold path_str.
      rewrite py_join_app by discriminate. reflexivity.
Qed.

Lemma py_startswith_app : forall p suf, py_startswith (p ++ suf) p = true.
Proof.
  intros p suf. unfold py_startswith.
  rewrite firstn_app, Nat.sub_diag, firstn_O, app_nil_r, firstn_all.
  now apply pystr_eqb_eq.
Qed.

(** X13.  [_extract_backup_safe] extracts every relative [.json] member
    without [..] components, and [ZipFile.extract] writes it at the
    resolved path of the member under the extraction directory. *)
Theorem extract_member_plain : forall temp_dir member,
  is_absolute member = false ->
  forallb (fun c => negb (is_dotdot c)) (split_on slash member) = true ->
  py_endswith member (str ".json") = true ->
  extract_member temp_dir member = Extracted (resolve_under temp_dir member).
Proof.
  intros temp_dir member Ha Hd Hj. unfold extract_member. rewrite Ha.
  assert (E : resolve_under temp_dir member = zip_extract_target temp_dir member).
  { unfold resolve_under, zip_extract_target.
    rewrite resolve_from_no_dotdot by exact Hd. now rewrite rev_involutive. }
  rewrite E. unfold zip_extract_target at 1.
  destruct (path_str_prefix temp_dir
              (filter (fun c => negb (is_empty c || is_dot c || is_dotdot c))
                 (split_on slash member))) as [suf Hs].
  rewrite Hs, py_startswith_app, Hj. reflexivity.
Qed.

Lemma extract_member_plain_witness :
  is_absolute (str "data/./backup.json") = false /\
  forallb (fun c => negb (is_dotdot c)) (split_on slash (str "data/./backup.json")) = true /\
  py_endswith (str "data/./backup.json") (str ".json") = true /\
  extract_member sample_temp_dir (str "data/./backup.json")
  = Extracted (resolve_under sample_temp_dir (str "data/./backup.json")).
Proof.
  split; [reflexivity|]. split; [vm_compute; reflexivity|]. split; [vm_compute; reflexivity|].
  apply extract_member_plain; vm_compute; reflexivity.
Defined.

(** ** Statements issued by a restore *)

Section RestoreShape.

Context {Props DB : Type} (run : DB -> query Props -> DB * option (list Z)).

Lemma fold_trace_grows {St B : Type} (tr : St -> list (query Props))
  (P : query Props -> Prop) (f : St -> B -> St) : forall l st,
  (forall st b, In b l -> exists e, tr (f st b) = tr st ++ e /\ Forall P e) ->
  exists e, tr (fold_left f l st) = tr st ++ e /\ Forall P e.
Proof.
  induction l as [|b l IH]; intros st Hf; simpl.
  - exists []. rewrite app_nil_r. split; [reflexivity|constructor].
  - destruct (Hf st b (or_introl eq_refl)) as [e1 [H1 P1]].
    destruct (IH (f st b)) as [e2 [H2 P2]]; [intros st' b' Hb; apply Hf; now right|].
    exists (e1 ++ e2). rewrite H2, H1, app_assoc. split; [reflexivity|].
    now apply Forall_app.
Qed.

Lemma fold_trace_mem {St B : Type} (tr : St -> list (query Props)) (f : St -> B -> St)
  (Hext : forall st b, exists e, tr (f st b) = tr st ++ e) :
  forall l st b q, In b l -> (forall st', In q (tr (f st' b))) ->
  In q (tr (fold_left f l st)).
Proof.
  assert (Hkeep : forall l st q, In q (tr st) -> In q (tr (fold_left f l st))).
  { induction l as [|b l IH]; simpl; intros st q H; [exact H|]. apply IH.
    destruct (Hext st b) as [e ->]. apply in_or_app. now left. }
  induction l as [|b' l IH]; intros st b q Hb Hq; [destruct Hb|]. simpl.
  destruct Hb as [<-|Hb]; [apply Hkeep, Hq|exact (IH _ b q Hb Hq)].
Qed.

Lemma create_nodes_batch_shape : forall k st b,
  exists e, tr_of (create_nodes_batch run k st b) = tr_of st ++ e /\
    Forall (fun q => q = QCreateNodesBatch k (map snd b) \/
                     exists it, In it b /\ q = QCreateNode k (snd it)) e.
Proof.
  intros k [[db tr] m] b. unfold create_nodes_batch.
  destruct (run db _) as [db' [ids|]].
  - exists [QCreateNodesBatch k (map snd b)]. split; [reflexivity|].
    constructor; [now left|constructor].
  - destruct (fold_trace_grows tr_of (fun q => exists it, In it b /\ q = QCreateNode k (snd it))
                (create_node_single run k) b (db', tr ++ [QCreateNodesBatch k (map snd b)], m))
      as [e [He Pe]].
    + intros [[d1 t1] m1] it Hit. unfold create_node_single.
      destruct (run d1 _) as [d2 [rows|]]; exists [QCreateNode k (snd it)];
        (split; [reflexivity|]); constructor; [exists it; now split|constructor| |];
        [exists it; now split|constructor].
    + exists (QCreateNodesBatch k (map snd b) :: e). rewrite He. unfold tr_of. simpl.
      rewrite <- app_assoc. split; [reflexivity|]. constructor; [now left|].
      eapply Forall_impl; [|exact Pe]. intros q Hq. now right.
Qed.

Lemma restore_groups_shape : forall groups st,
  exists e, tr_of (restore_groups run groups st) = tr_of st ++ e /\
            Forall (node_query_from groups) e.
Proof.
  intros groups st. unfold restore_groups.
  apply fold_trace_grows. intros st' g Hg.
  apply fold_trace_grows. intros st'' b Hb.
  destruct (create_nodes_batch_shape (fst g) st'' b) as [e [He Pe]].
  exists e. split; [exact He|]. eapply Forall_impl; [|exact Pe].
  intros q [->|[it [Hit ->]]]; exists g; split; auto.
  - left. now exists b.
  - right. exists it. split; [exact (chunks_sub _ _ _ _ Hb Hit)|reflexivity].
Qed.

Lemma create_rels_batch_shape : forall t st b,
  exists e, rtr_of (create_rels_batch run t st b) = rtr_of st ++ e /\
    Forall (fun q => q = QCreateRelsBatch t b \/ exists it, In it b /\ q = QCreateRel t it) e /\
    In (QCreateRelsBatch t b) e.
Proof.
  intros t [[db tr] n] b. unfold create_rels_batch.
  destruct (run db _) as [db' [rows|]].
  - exists [QCreateRelsBatch t b]. split; [reflexivity|]. split; [|now left].
    constructor; [now left|constructor].
  - destruct (fold_trace_grows rtr_of (fun q => exists it, In it b /\ q = QCreateRel t it)
                (create_rel_single run t) b (db', tr ++ [QCreateRelsBatch t b], n))
      as [e [He Pe]].
    + intros [[d1 t1] n1] it Hit. unfold create_rel_single.
      destruct (run d1 _) as [d2 [rows|]]; exists [QCreateRel t it];
        (split; [reflexivity|]); constructor; [exists it; now split|constructor| |];
        [exists it; now split|constructor].
    + exists (QCreateRelsBatch t b :: e). rewrite He. unfold rtr_of. simpl.
      rewrite <- app_assoc. split; [reflexivity|]. split; [|now left].
      constructor; [now left|].
      eapply Forall_impl; [|exact Pe]. intros q Hq. now right.
Qed.

Lemma restore_rel_groups_shape : forall groups st,
  exists e, rtr_of (restore_rel_groups run groups st) = rtr_of st ++ e /\
            Forall (rel_query_from groups) e.
Proof.
  intros groups st. unfold restore_rel_groups.
  apply fold_trace_grows. intros st' g Hg.
  apply fold_trace_grows. intros st'' b Hb.
  destruct (create_rels_batch_shape (fst g) st'' b) as [e [He [Pe _]]].
  exists e. split; [exact He|]. eapply Forall_impl; [|exact Pe].
  intros q [->|[it [Hit ->]]]; exists g; split; auto.
  - left. now exists b.
  - right. exists it. split; [exact (chunks_sub _ _ _ _ Hb Hit)|reflexivity].
Qed.

Lemma restore_relations_batch_unfold : forall rels m db tr,
  restore_relations_batch run rels m db tr = restore_rel_groups run (group_rels m rels) (db, tr, 0%Z).
Proof. reflexivity. Qed.

Lemma restore_rel_groups_mem : forall groups st g b,
  In g groups -> In b (chunks batch_size (snd g)) ->
  In (QCreateRelsBatch (fst g) b) (rtr_of (restore_rel_groups run groups st)).
Proof.
  intros groups st g b Hg Hb. unfold restore_rel_groups.
  apply (fold_trace_mem rtr_of _ ) with (b := g); [|exact Hg|].
  - intros st' g'. destruct (fold_trace_grows rtr_of (fun _ => True)
      (create_rels_batch run (fst g')) (chunks batch_size (snd g')) st') as [e [He _]].
    + intros st'' b' _. destruct (create_rels_batch_shape (fst g') st'' b') as [e [He _]].
      exists e. split; [exact He|]. apply Forall_forall. intros; exact I.
    + now exists e.
  - intro st'. apply (fold_trace_mem rtr_of _) with (b := b); [|exact Hb|].
    + intros st'' b'. destruct (create_rels_batch_shape (fst g) st'' b') as [e [He _]].
      now exists e.
    + intro st''. destruct (create_rels_batch_shape (fst g) st'' b) as [e [He [_ Ie]]].
      assert (I2 : In (QCreateRelsBatch (fst g) b) (rtr_of st'' ++ e)) by (apply in_or_app; now right).
      rewrite <- He in I2. exact I2.
Qed.

Lemma group_rels_keys : forall m (rels : list (relation Props)) k items,
  In (k, items) (group_rels m rels) ->
  exists r, In r rels /\ k = safe_rel_type (raw_rel_type r).
Proof.
  intros m rels. unfold group_rels.
  apply (fold_left_inv _ (fun acc => forall k items, In (k, items) acc ->
     exists r, In r rels /\ k = safe_rel_type (raw_rel_type r))).
  - intros k items [].
  - intros acc r Hr Hacc k items Hk. unfold group_rel in Hk.
    destruct (lookup_old m (rel_source r)); [|exact (Hacc k items Hk)].
    destruct (lookup_old m (rel_target r)); [|exact (Hacc k items Hk)].
    destruct (dict_append_keys pystr_eqb _ _ _ _ _ Hk) as [->|[ys Hys]].
    + exists r. split; [exact Hr|reflexivity].
    + exact (Hacc k ys Hys).
Qed.

Lemma group_rels_complete : forall m (rels : list (relation Props)) r s t,
  In r rels -> lookup_old m (rel_source r) = Some s -> lookup_old m (rel_target r) = Some t ->
  exists items, In (safe_rel_type (raw_rel_type r), items) (group_rels m rels) /\
                In (s, t, rel_props r) items.
Proof.
  intros m rels r s t Hr Hs Ht. apply in_split in Hr as [l1 [l2 ->]].
  unfold group_rels. rewrite fold_left_app. cbn [fold_left].
  apply (fold_left_inv _ (fun acc => exists items,
     In (safe_rel_type (raw_rel_type r), items) acc /\ In (s, t, rel_props r) items)).
  - unfold group_rel at 1. rewrite Hs, Ht.
    apply (dict_append_in pystr_eqb pystr_eqb_true).
  - intros acc r' _ [items [H1 H2]]. unfold group_rel.
    destruct (lookup_old m (rel_source r')); [|now exists items].
    destruct (lookup_old m (rel_target r')); [|now exists items].
    exact (dict_append_keep pystr_eqb _ _ _ _ _ _ H1 H2).
Qed.

End RestoreShape.

Lemma safe_label_valid : forall l, validate_cypher_label (safe_label l) = true.
Proof.
  intro l. unfold safe_label. destruct (validate_cypher_label l) eqn:V; [exact V|].
  apply pattern_of_grammar, sanitize_label_grammar.
Qed.

Lemma safe_rel_type_valid : forall t, validate_cypher_rel_type (safe_rel_type t) = true.
Proof.
  intro t. unfold safe_rel_type. destruct (validate_cypher_rel_type t) eqn:V; [exact V|].
  apply pattern_of_grammar, sanitize_label_grammar.
Qed.

Lemma labels_key_ok : forall raw, labels_text_ok (labels_key raw).
Proof.
  intro raw. unfold labels_key.
  destruct (map safe_label raw) as [|x l] eqn:E.
  - exists [Node_label]. split; [reflexivity|]. split; [discriminate|].
    constructor; [reflexivity|constructor].
  - exists (py_sorted (x :: l)). split; [reflexivity|]. split.
    + simpl. apply insert_sorted_nonempty.
    + apply Forall_forall. intros y Hy. apply py_sorted_in in Hy. rewrite <- E in Hy.
      apply in_map_iff in Hy as [z [<- _]]. apply safe_label_valid.
Qed.

Lemma chunks_fuel_bounded {A : Type} : forall n fuel (l : list A) c,
  (0 < n)%nat -> In c (chunks_fuel fuel n l) -> (1 <= List.length c <= n)%nat.
Proof.
  intros n fuel. induction fuel as [|fuel IH]; intros l c Hn Hc; [destruct Hc|].
  destruct l as [|y l']; [destruct Hc|]. destruct Hc as [<-|Hc]; [|exact (IH _ _ Hn Hc)].
  rewrite length_firstn. simpl. lia.
Qed.

Lemma chunks_bounded {A : Type} : forall n (l : list A) c,
  (0 < n)%nat -> In c (chunks n l) -> (1 <= List.length c <= n)%nat.
Proof. intros n l. apply chunks_fuel_bounded. Qed.

Lemma restore_session_queries : forall {Props DB : Type}
  (run : DB -> query Props -> DB * option (list Z)) nodes rels db,
  let '(_, tr, _, _) := restore_session run nodes rels db in
  forall q, In q tr ->
    node_query_from (group_nodes nodes) q \/
    (exists m, rel_query_from (group_rels m rels) q) \/ q = QVerify.
Proof.
  intros Props DB run nodes rels db. unfold restore_session.
  pose proof (restore_groups_shape run (group_nodes nodes) (db, [], [])) as [e1 [H1 P1]].
  rewrite <- restore_nodes_batch_unfold in H1.
  destruct (restore_nodes_batch run nodes db []) as [[db1 tr1] m] eqn:E1.
  pose proof (restore_rel_groups_shape run (group_rels m rels) (db1, tr1, 0%Z)) as [e2 [H2 P2]].
  rewrite <- restore_relations_batch_unfold in H2.
  destruct (restore_relations_batch run rels m db1 tr1) as [[db2 tr2] n] eqn:E2.
  unfold tr_of, rtr_of in *. simpl in H1, H2. subst tr1 tr2.
  rewrite Forall_forall in P1, P2.
  assert (Hq : forall q, In q (e1 ++ e2) ->
            node_query_from (group_nodes nodes) q \/
            (exists m, rel_query_from (group_rels m rels) q) \/ q = QVerify).
  { intros q Hq. apply in_app_or in Hq as [Hq|Hq]; [left; now apply P1|].
    right; left. exists m. now apply P2. }
  destruct (run db2 QVerify) as [db3 [rows|]]; intros q Hq';
    apply in_app_or in Hq' as [Hq'|[<-|[]]];
    solve [apply Hq; exact Hq' | right; right; reflexivity].
Qed.

(** X14.  Everything the restore splices into a statement's text has
    passed the validators.  Every labels string is a non-empty [:]-join of
    labels that [validate_cypher_label] accepts.  Every relationship type
    is accepted by [validate_cypher_rel_type]. *)
Theorem restore_session_spliced_validated : forall {Props DB : Type}
  (run : DB -> query Props -> DB * option (list Z)) nodes rels db,
  let '(_, tr, _, _) := restore_session run nodes rels db in Forall spliced_ok tr.
Proof.
  intros Props DB run nodes rels db.
  pose proof (restore_session_queries run nodes rels db) as H.
  destruct (restore_session run nodes rels db) as [[[db' tr] n] ok].
  apply Forall_forall. intros q Hq.
  destruct (H q Hq) as [[g [Hg Hq']]|[[m [g [Hg Hq']]]| ->]]; [| |exact I].
  - destruct g as [k items]. destruct (group_nodes_sound nodes k items Hg) as [[n0 [_ ->]] _].
    destruct Hq' as [[b [_ ->]]|[it [_ ->]]]; apply labels_key_ok.
  - destruct g as [k items]. destruct (group_rels_keys m rels k items Hg) as [r [_ ->]].
    destruct Hq' as [[b [_ ->]]|[it [_ ->]]]; apply safe_rel_type_valid.
Qed.

(** X15.  Every [UNWIND $batch] statement of a restore carries between 1
    and 500 items. *)
Theorem restore_session_batches_bounded : forall {Props DB : Type}
  (run : DB -> query Props -> DB * option (list Z)) nodes rels db,
  let '(_, tr, _, _) := restore_session run nodes rels db in Forall batch_bounded tr.
Proof.
  intros Props DB run nodes rels db.
  pose proof (restore_session_queries run nodes rels db) as H.
  destruct (restore_session run nodes rels db) as [[[db' tr] n] ok].
  apply Forall_forall. intros q Hq.
  destruct (H q Hq) as [[g [Hg Hq']]|[[m [g [Hg Hq']]]| ->]]; [| |exact I].
  - destruct Hq' as [[c [Hc ->]]|[it [_ ->]]]; [|exact I]. simpl.
    rewrite length_map. exact (chunks_bounded batch_size _ _ ltac:(unfold batch_size; lia) Hc).
  - destruct Hq' as [[c [Hc ->]]|[it [_ ->]]]; [|exact I]. simpl.
    exact (chunks_bounded batch_size _ _ ltac:(unfold batch_size; lia) Hc).
Qed.


(** X17.  Every relation whose two endpoints are in the id map is
    submitted in a batched creation under its sanitised type.  Its
    endpoints are mapped through [id_mapping]. *)
Theorem restore_relations_every_mapped_submitted : forall {Props DB : Type}
  (run : DB -> query Props -> DB * option (list Z)) (rels : list (relation Props)) m db tr r s t,
  In r rels -> lookup_old m (rel_source r) = Some s -> lookup_old m (rel_target r) = Some t ->
  exists b,
    In (QCreateRelsBatch (safe_rel_type (raw_rel_type r)) b)
       (rtr_of (restore_relations_batch run rels m db tr)) /\
    In (s, t, rel_props r) b.
Proof.
  intros Props DB run rels m db tr r s t Hr Hs Ht.
  destruct (group_rels_complete m rels r s t Hr Hs Ht) as [items0 [Hg Hit]].
  destruct (chunks_cover batch_size items0 _ ltac:(unfold batch_size; lia) Hit) as [b [Hb Hin]].
  exists b. split; [|exact Hin]. rewrite restore_relations_batch_unfold.
  exact (restore_rel_groups_mem run _ (db, tr, 0%Z) _ b Hg Hb).
Qed.

(** X18.  Every key of the id map built by [_restore_nodes_batch] is the
    id of a node of the archive. *)
Theorem restore_nodes_map_keys : forall {Props DB : Type}
  (run : DB -> query Props -> DB * option (list Z)) (nodes : list (node Props)) db tr k v,
  In (k, v) (map_of (restore_nodes_batch run nodes db tr)) ->
  exists n, In n nodes /\ node_id n = Some k.
Proof.
  intros Props DB run nodes db tr k v H. exact (restore_nodes_keys run nodes db tr k v H).
Qed.


Lemma restore_relations_every_mapped_submitted_witness :
  In (sample_rel 1 2) [sample_rel 1 2; sample_rel 99 2] /\
  lookup_old (map_of (restore_nodes_batch demo_run [sample_node 1 []; sample_node 2 []] 0%Z []))
    (rel_source (sample_rel 1 2)) = Some 0%Z /\
  lookup_old (map_of (restore_nodes_batch demo_run [sample_node 1 []; sample_node 2 []] 0%Z []))
    (rel_target (sample_rel 1 2)) = Some 1%Z /\
  exists b,
    In (QCreateRelsBatch (safe_rel_type (raw_rel_type (sample_rel 1 2))) b)
       (rtr_of (restore_relations_batch demo_run [sample_rel 1 2; sample_rel 99 2]
          (map_of (restore_nodes_batch demo_run [sample_node 1 []; sample_node 2 []] 0%Z []))
          0%Z [])) /\
    In (0%Z, 1%Z, rel_props (sample_rel 1 2)) b.
Proof.
  assert (H1 : In (sample_rel 1 2) [sample_rel 1 2; sample_rel 99 2]) by (left; reflexivity).
  assert (H2 : lookup_old (map_of (restore_nodes_batch demo_run
                 [sample_node 1 []; sample_node 2 []] 0%Z []))
                 (rel_source (sample_rel 1 2)) = Some 0%Z) by (vm_compute; reflexivity).
  assert (H3 : lookup_old (map_of (restore_nodes_batch demo_run
                 [sample_node 1 []; sample_node 2 []] 0%Z []))
                 (rel_target (sample_rel 1 2)) = Some 1%Z) by (vm_compute; reflexivity).
  split; [exact H1|]. split; [exact H2|]. split; [exact H3|].
  exact (restore_relations_every_mapped_submitted demo_run _ _ 0%Z [] _ _ _ H1 H2 H3).
Defined.

Lemma restore_nodes_map_keys_witness :
  In (2%Z, 1%Z) (map_of (restore_nodes_batch demo_run [sample_node 1 []; sample_node 2 []] 0%Z [])) /\
  exists n, In n [sample_node 1 []; sample_node 2 []] /\ node_id n = Some 2%Z.
Proof.
  assert (H : In (2%Z, 1%Z) (map_of (restore_nodes_batch demo_run
                 [sample_node 1 []; sample_node 2 []] 0%Z []))) by (vm_compute; auto).
  split; [exact H|]. exact (restore_nodes_map_keys demo_run _ 0%Z [] 2%Z 1%Z H).
Defined.
